(** * Recruitment automation: the interview engine, its orchestrator,
      the staged scenario walk and the summarization reducer.

    A shallow embedding of
      - [domains/recruitment/conversation.py]  (turn engine),
      - [domains/handler.py] and [domains/recruitment/storage.py]
        (session orchestrator over the durable store),
      - [domains/recruitment/evaluation.py]    (report compiler),
      - [domains/recruitment/new_scenario_manager.py] (staged scenarios),
      - [domains/recruitment/summary.py], [domains/recruitment/tools.py] and
        [domains/recruitment/master_agent.py]  (summarization reducer),
    followed by the properties the specification states about them.

    Conventions.  Python [str] is [string] (ASCII text).  A Python [dict] with
    a fixed set of optional keys is a record of [option] fields ([None] = the
    key is absent); a dict used as a map is a [gmap]; an ordered dict whose
    order is observed is an association list.  A call to a language-model
    chain is a call to an oracle function whose result [None] stands for the
    chain raising an exception (transport failure or unparsable output).
    Mutation of the session dict is explicit state passing in the monad [M],
    which also carries raised exceptions and the log of oracle calls. *)

From stdpp Require Import base option list strings gmap.
From Stdlib Require Import Ascii String ZArith Lia.

Local Open Scope string_scope.
Local Open Scope list_scope.

(* ===================================================================== *)
(** ** Python string operations used by the engine *)
(* ===================================================================== *)

Module PyStr.

(** A text is a [string].  A text made of ASCII characters (codes below
    128) is the Python [str] with the same characters, and on such texts the
    functions of this module are the methods of [str] they are named after.
    A statement that depends on what [strip] does to a text assumes
    [is_ascii] of it. *)
Fixpoint is_ascii (s : string) : bool :=
  match s with
  | EmptyString => true
  | String c s' => (nat_of_ascii c <? 128)%nat && is_ascii s'
  end.

(** [str.isspace] on ASCII characters: TAB, LF, VT, FF, CR, the four
    separators 0x1c-0x1f and the space.  These are the characters
    [str.strip] removes from an ASCII text; [str.strip] also removes the
    white space outside ASCII (U+0085, U+00A0, U+2003, ...), which is why
    [lstrip], [rstrip] and [strip] below stand for the methods of [str] on
    ASCII texts only. *)
Definition is_space (c : ascii) : bool :=
  let n := nat_of_ascii c in
  (((9 <=? n) && (n <=? 13)) || ((28 <=? n) && (n <=? 32)))%nat.

Fixpoint lstrip (s : string) : string :=
  match s with
  | EmptyString => EmptyString
  | String c s' => if is_space c then lstrip s' else s
  end.

(** [rstrip]: a character is kept when it is not white space or when
    something remains after it. *)
Fixpoint rstrip (s : string) : string :=
  match s with
  | EmptyString => EmptyString
  | String c s' =>
      match rstrip s' with
      | EmptyString => if is_space c then EmptyString else String c EmptyString
      | r => String c r
      end
  end.

(** [s.strip()] *)
Definition strip (s : string) : string := rstrip (lstrip s).

(** [s.startswith(p)] *)
Fixpoint startswith (p s : string) : bool :=
  match p, s with
  | EmptyString, _ => true
  | String a p', String b s' => if decide (a = b) then startswith p' s' else false
  | String _ _, EmptyString => false
  end.

(** [s.replace(old, new)] for a non-empty [old]: a left-to-right scan that
    replaces every non-overlapping occurrence.  [skip] counts the
    characters of a matched occurrence still to be dropped. *)
Fixpoint replace_from (old new : string) (skip : nat) (s : string) : string :=
  match s with
  | EmptyString => EmptyString
  | String c s' =>
      match skip with
      | S k => replace_from old new k s'
      | O =>
          if startswith old s
          then new +:+ replace_from old new (String.length old - 1) s'
          else String c (replace_from old new 0 s')
      end
  end.

Definition replace (old new s : string) : string := replace_from old new 0 s.

(** [s.split(sep)[0]] for a one-character separator: the text before the
    first separator, the whole text when there is none. *)
Fixpoint split_head (sep : ascii) (s : string) : string :=
  match s with
  | EmptyString => EmptyString
  | String c s' => if decide (c = sep) then EmptyString else String c (split_head sep s')
  end.

(** ["\n".join(parts)] and friends. *)
Fixpoint join (sep : string) (parts : list string) : string :=
  match parts with
  | [] => EmptyString
  | [p] => p
  | p :: rest => p +:+ sep +:+ join sep rest
  end.

Definition newline : string := String (ascii_of_nat 10) EmptyString.

End PyStr.

(* ===================================================================== *)
(** ** Data model of the turn engine ([conversation.py], [prompts.py]) *)
(* ===================================================================== *)

(** LangChain messages; the class of a message is its role. *)
Inductive Message :=
| SystemMessage (content : string)
| AIMessage (content : string)
| HumanMessage (content : string).

Definition content (m : Message) : string :=
  match m with SystemMessage c | AIMessage c | HumanMessage c => c end.

#[global] Instance Message_eq_dec : EqDecision Message.
Proof. solve_decision. Defined.

(** A question of a traditional scenario: [{"id": ..., "question": ...}]. *)
Record Question := { q_id : string; q_question : string }.

#[global] Instance Question_eq_dec : EqDecision Question.
Proof. solve_decision. Defined.

(** A traditional scenario.  [title], [description] and [questions] are read
    with [.get] / membership tests by the engine, hence optional. *)
Record Scenario := {
  sc_id : string;
  sc_title : option string;
  sc_description : option string;
  sc_questions : option (list Question)
}.

(** Values stored in an analysis dict. *)
Inductive PyVal :=
| VInt (z : Z)
| VStr (s : string).

#[global] Instance PyVal_eq_dec : EqDecision PyVal.
Proof. solve_decision. Defined.

(** [prompts.ClarificationResponse]; the follow-up question defaults to
    [None]. *)
Record ClarificationResponse := {
  needs_clarification : bool;
  clarification_question : option string;
  clar_reasoning : string
}.

(** [prompts.ResponseAnalysis]: five scores and a reasoning. *)
Record ResponseAnalysis := {
  relevance_score : Z;
  completeness_score : Z;
  clarity_score : Z;
  technical_accuracy_score : Z;
  professional_tone_score : Z;
  reasoning : string
}.

(** [analysis_result.dict()] *)
Definition analysis_dict (a : ResponseAnalysis) : gmap string PyVal :=
  <["relevance_score" := VInt (relevance_score a)]>
  (<["completeness_score" := VInt (completeness_score a)]>
  (<["clarity_score" := VInt (clarity_score a)]>
  (<["technical_accuracy_score" := VInt (technical_accuracy_score a)]>
  (<["professional_tone_score" := VInt (professional_tone_score a)]>
  (<["reasoning" := VStr (reasoning a)]> ∅))))).

(** The dict literal of [process_response] lines 164-171. *)
Definition default_analysis : gmap string PyVal :=
  <["relevance_score" := VInt 5]>
  (<["completeness_score" := VInt 5]>
  (<["clarity_score" := VInt 5]>
  (<["technical_accuracy_score" := VInt 5]>
  (<["professional_tone_score" := VInt 5]>
  (<["reasoning" := VStr "Analysis failed due to an error."]> ∅))))).

(** One entry of [session["evaluation"]]. *)
Record EvalEntry := {
  ev_question : string;
  ev_response : string;
  ev_analysis : gmap string PyVal
}.

(** The session dict of the engine. *)
Record Session := {
  scenario : option Scenario;
  current_question_index : option nat;
  questions_asked : option (list string);
  conversation_history : option (list Message);
  evaluation : option (gmap string EvalEntry);
  current_question : option Question;
  awaiting_clarification : option bool;
  interview_complete : option bool
}.

Definition empty_session : Session :=
  {| scenario := None; current_question_index := None; questions_asked := None;
     conversation_history := None; evaluation := None; current_question := None;
     awaiting_clarification := None; interview_complete := None |}.

(** [not session]: the dict has no key. *)
Definition session_is_empty (s : Session) : bool :=
  match scenario s, current_question_index s, questions_asked s,
        conversation_history s, evaluation s, current_question s,
        awaiting_clarification s, interview_complete s with
  | None, None, None, None, None, None, None, None => true
  | _, _, _, _, _, _, _, _ => false
  end.

(** Item assignments [session[key] = v]. *)
Definition set_questions_asked (v : list string) (s : Session) : Session :=
  {| scenario := scenario s; current_question_index := current_question_index s;
     questions_asked := Some v; conversation_history := conversation_history s;
     evaluation := evaluation s; current_question := current_question s;
     awaiting_clarification := awaiting_clarification s;
     interview_complete := interview_complete s |}.

Definition set_conversation_history (v : list Message) (s : Session) : Session :=
  {| scenario := scenario s; current_question_index := current_question_index s;
     questions_asked := questions_asked s; conversation_history := Some v;
     evaluation := evaluation s; current_question := current_question s;
     awaiting_clarification := awaiting_clarification s;
     interview_complete := interview_complete s |}.

Definition set_evaluation (v : gmap string EvalEntry) (s : Session) : Session :=
  {| scenario := scenario s; current_question_index := current_question_index s;
     questions_asked := questions_asked s; conversation_history := conversation_history s;
     evaluation := Some v; current_question := current_question s;
     awaiting_clarification := awaiting_clarification s;
     interview_complete := interview_complete s |}.

Definition set_current_question (v : Question) (s : Session) : Session :=
  {| scenario := scenario s; current_question_index := current_question_index s;
     questions_asked := questions_asked s; conversation_history := conversation_history s;
     evaluation := evaluation s; current_question := Some v;
     awaiting_clarification := awaiting_clarification s;
     interview_complete := interview_complete s |}.

Definition set_awaiting_clarification (v : bool) (s : Session) : Session :=
  {| scenario := scenario s; current_question_index := current_question_index s;
     questions_asked := questions_asked s; conversation_history := conversation_history s;
     evaluation := evaluation s; current_question := current_question s;
     awaiting_clarification := Some v;
     interview_complete := interview_complete s |}.

Definition set_interview_complete (v : bool) (s : Session) : Session :=
  {| scenario := scenario s; current_question_index := current_question_index s;
     questions_asked := questions_asked s; conversation_history := conversation_history s;
     evaluation := evaluation s; current_question := current_question s;
     awaiting_clarification := awaiting_clarification s;
     interview_complete := Some v |}.

(** The three language-model chains of the engine.  [None]: the chain
    raised. *)
Record Oracle := {
  clarification_chain : string -> string -> option ClarificationResponse;
  analysis_chain : string -> string -> option ResponseAnalysis;
  next_question_chain : string -> string -> string -> string -> option string
}.

(** An entry of the log of chain invocations. *)
Inductive OracleCall :=
| CallClarification (question response : string)
| CallAnalysis (question response : string)
| CallNextQuestion (title description available history : string).

(** Python exceptions raised inside the engine (all of class [Exception]). *)
Inductive Exn :=
| ValueError (msg : string)
| KeyError (key : string)
| IndexError
| ValidationError
| ChainError.

Definition is_KeyError (e : Exn) : bool :=
  match e with KeyError _ => true | _ => false end.

(* ===================================================================== *)
(** ** The state-and-exception monad of the engine *)
(* ===================================================================== *)

Record World := { w_session : Session; w_calls : list OracleCall }.

Inductive Res (A : Type) :=
| Ok (a : A)
| Raise (e : Exn).
Arguments Ok {A} a.
Arguments Raise {A} e.

Definition M (A : Type) : Type := World -> World * Res A.

Definition ret {A} (a : A) : M A := fun w => (w, Ok a).

Definition bind {A B} (c : M A) (k : A -> M B) : M B :=
  fun w => match c w with
           | (w', Ok a) => k a w'
           | (w', Raise e) => (w', Raise e)
           end.

Notation "'let*' x ':=' c 'in' k" := (bind c (fun x => k))
  (at level 10, x name, c at level 100, k at level 200).

Definition raise {A} (e : Exn) : M A := fun w => (w, Raise e).

(** [try: body / except Exception as e: handler]: mutations made by [body]
    before it raised are kept. *)
Definition try_except {A} (body : M A) (handler : Exn -> M A) : M A :=
  fun w => match body w with
           | (w', Ok a) => (w', Ok a)
           | (w', Raise e) => handler e w'
           end.

(** [try: body / except KeyError as e: handler]: other exceptions pass. *)
Definition try_except_KeyError {A} (body : M A) (handler : Exn -> M A) : M A :=
  fun w => match body w with
           | (w', Ok a) => (w', Ok a)
           | (w', Raise e) => if is_KeyError e then handler e w' else (w', Raise e)
           end.

Definition read_session : M Session := fun w => (w, Ok (w_session w)).

Definition upd (f : Session -> Session) (w : World) : World :=
  {| w_session := f (w_session w); w_calls := w_calls w |}.

Definition logged (c : OracleCall) (w : World) : World :=
  {| w_session := w_session w; w_calls := w_calls w ++ [c] |}.

Definition modify_session (f : Session -> Session) : M unit :=
  fun w => (upd f w, Ok tt).

(** [session[key]] for a key that may be absent. *)
Definition item {A} (key : string) (field : option A) : M A :=
  match field with
  | Some v => ret v
  | None => raise (KeyError key)
  end.

Definition log_call (c : OracleCall) : M unit :=
  fun w => (logged c w, Ok tt).

(** [await chain.ainvoke(...)]: the call is logged, then returns or raises. *)
Definition invoke {A} (c : OracleCall) (result : option A) : M A :=
  let* _ := log_call c in
  match result with
  | Some r => ret r
  | None => raise ChainError
  end.

(** [session["conversation_history"].append(m)] *)
Definition append_history (m : Message) : M unit :=
  let* s := read_session in
  let* h := item "conversation_history" (conversation_history s) in
  modify_session (set_conversation_history (h ++ [m])).

(** [session["questions_asked"].append(i)] *)
Definition append_asked (i : string) : M unit :=
  let* s := read_session in
  let* a := item "questions_asked" (questions_asked s) in
  modify_session (set_questions_asked (a ++ [i])).

(** [session["evaluation"][i] = e] *)
Definition store_analysis (i : string) (e : EvalEntry) : M unit :=
  let* s := read_session in
  let* ev := item "evaluation" (evaluation s) in
  modify_session (set_evaluation (<[i := e]> ev)).

(* ===================================================================== *)
(** ** The turn engine ([conversation.py]) *)
(* ===================================================================== *)

Definition closing_message : Message :=
  AIMessage "Thank you for completing this technical interview. We'll now evaluate your responses.".

(** Lines 314-315: the identifier extracted from the chain's answer. *)
Definition clean_id (answer : string) : string :=
  PyStr.strip (PyStr.split_head "," (PyStr.replace "ID: " "" (PyStr.strip answer))).

(** Lines 266-270: the questions whose id is not in [questions_asked], in
    scenario order. *)
Definition available_questions (qs : list Question) (asked : list string) : list Question :=
  filter (fun q => q_id q ∉ asked) qs.

(** Lines 291-293. *)
Definition available_questions_text (available : list Question) : string :=
  PyStr.join PyStr.newline
    (map (fun q => "ID: " +:+ q_id q +:+ ", Question: " +:+ q_question q) available).

(** Lines 296-300. *)
Definition history_line (m : Message) : option string :=
  match m with
  | SystemMessage _ => None
  | AIMessage c => Some ("Interviewer: " +:+ c)
  | HumanMessage c => Some ("Candidate: " +:+ c)
  end.

Definition conversation_history_text (h : list Message) : string :=
  PyStr.join PyStr.newline (omap history_line h).

(** Lines 318-326: first available question with the selected id, else the
    first available question. *)
Definition match_question (available : list Question) (first : Question) (i : string) : Question :=
  default first (List.find (fun q => bool_decide (q_id q = i)) available).

(** [select_next_question].  The module-level chain is initialised when the
    module is imported (line 339), so the [_llm is None] branch is not taken.
    In the first inner [try] a [KeyError] could only come from a question
    without an ["id"], which [Question] excludes; that handler is omitted. *)
Definition select_next_question (o : Oracle) : M (option Question) :=
  try_except
    (let* s := read_session in
     if session_is_empty s then raise (ValueError "Empty session provided") else
     match scenario s, questions_asked s with
     | Some sc, Some asked =>
         match sc_questions sc with
         | None => raise (ValueError "Invalid scenario format: missing questions field")
         | Some qs =>
             match available_questions qs asked with
             | [] => ret None
             | [q] => ret (Some q)
             | (first :: _) as available =>
                 try_except
                   (let* h := item "conversation_history" (conversation_history s) in
                    let title := default "Unknown Scenario" (sc_title sc) in
                    let descr := default "No description available" (sc_description sc) in
                    let avail := available_questions_text available in
                    let hist := conversation_history_text h in
                    let* answer := invoke (CallNextQuestion title descr avail hist)
                                     (next_question_chain o title descr avail hist) in
                    ret (Some (match_question available first (clean_id answer))))
                   (fun _ => ret (Some first))
             end
         end
     | _, _ => raise (ValueError "Invalid session format: missing required fields")
     end)
    (fun _ => ret None).

(** Lines 110-132.  The result [true] means that [process_response] returns
    at line 129.  A response that asks for clarification without a question
    makes [AIMessage(content=None)] fail validation inside the [try]. *)
Definition clarification_check (o : Oracle) (response : string) : M bool :=
  try_except
    (let* s := read_session in
     let* cq := item "current_question" (current_question s) in
     let* r := invoke (CallClarification (q_question cq) response)
                 (clarification_chain o (q_question cq) response) in
     if needs_clarification r then
       match clarification_question r with
       | Some text =>
           let* _ := append_history (AIMessage text) in
           let* _ := modify_session (set_awaiting_clarification true) in
           ret true
       | None => raise ValidationError
       end
     else ret false)
    (fun _ => ret false).

(** Lines 138-172. *)
Definition analyze_response (o : Oracle) (response : string) : M unit :=
  try_except
    (let* s := read_session in
     let* cq := item "current_question" (current_question s) in
     let* a := invoke (CallAnalysis (q_question cq) response)
                 (analysis_chain o (q_question cq) response) in
     store_analysis (q_id cq)
       {| ev_question := q_question cq; ev_response := response;
          ev_analysis := analysis_dict a |})
    (fun _ =>
     let* s := read_session in
     let* cq := item "current_question" (current_question s) in
     store_analysis (q_id cq)
       {| ev_question := q_question cq; ev_response := response;
          ev_analysis := default_analysis |}).

(** Lines 175-195.  The result [true] means that [process_response] returns
    at line 189. *)
Definition completion_check : M bool :=
  try_except_KeyError
    (let* s := read_session in
     let* asked := item "questions_asked" (questions_asked s) in
     let* sc := item "scenario" (scenario s) in
     let* qs := item "questions" (sc_questions sc) in
     if bool_decide (List.length qs <= List.length asked) then
       let* _ := modify_session (set_interview_complete true) in
       let* _ := append_history closing_message in
       ret true
     else ret false)
    (fun _ => ret false).

Definition mark_complete : M unit :=
  let* _ := modify_session (set_interview_complete true) in
  append_history closing_message.

(** Lines 198-224. *)
Definition select_next_step (o : Oracle) : M unit :=
  try_except
    (let* next_question := select_next_question o in
     match next_question with
     | Some q =>
         let* _ := modify_session (set_current_question q) in
         let* _ := append_asked (q_id q) in
         append_history (AIMessage (q_question q))
     | None => mark_complete
     end)
    (fun _ => mark_complete).

(** [process_response] (lines 79-230). *)
Definition process_response (o : Oracle) (response : string) : M Session :=
  try_except
    (let* s := read_session in
     if session_is_empty s then raise (ValueError "Empty session provided") else
     match current_question s with
     | None => raise (ValueError "Invalid session format: missing current_question")
     | Some _ =>
         let* _ := append_history (HumanMessage response) in
         let* stop := clarification_check o response in
         if stop then read_session else
         let* _ := modify_session (set_awaiting_clarification false) in
         let* _ := analyze_response o response in
         let* done := completion_check in
         if done then read_session else
         let* _ := select_next_step o in
         read_session
     end)
    (fun _ => read_session).

(** [scenario_manager.get_scenario_by_id] over the loaded list. *)
Definition get_scenario_by_id (scenarios : list Scenario) (scenario_id : string) : option Scenario :=
  List.find (fun sc => bool_decide (sc_id sc = scenario_id)) scenarios.

(** [scenario_manager.select_random_scenario]; [rnd] is the draw of
    [random.choice]. *)
Definition select_random_scenario (scenarios : list Scenario) (rnd : nat) : option Scenario :=
  scenarios !! (rnd mod List.length scenarios).

(** [prompts.SYSTEM_PROMPT] (three lines). *)
Definition SYSTEM_PROMPT : string :=
  "You are an HR interviewer conducting a technical assessment interview. " +:+ PyStr.newline +:+
  "Your goal is to evaluate the candidate's responses to technical questions." +:+ PyStr.newline +:+
  "Be professional, courteous, and thorough in your interactions." +:+ PyStr.newline.

(** [start_interview] (lines 29-77). *)
Definition start_interview (scenarios : list Scenario) (rnd : nat)
    (scenario_id : option string) : Res Session :=
  let selected :=
    match scenario_id with
    | Some i =>
        if bool_decide (i = "") then select_random_scenario scenarios rnd
        else match get_scenario_by_id scenarios i with
             | Some sc => Some sc
             | None => select_random_scenario scenarios rnd
             end
    | None => select_random_scenario scenarios rnd
    end in
  match selected with
  | None => Raise (ValueError "No scenarios available to start interview")
  | Some sc =>
      match sc_questions sc with
      | Some (first_question :: _) =>
          Ok {| scenario := Some sc;
                current_question_index := Some 0;
                questions_asked := Some [q_id first_question];
                conversation_history :=
                  Some [SystemMessage SYSTEM_PROMPT;
                        AIMessage ("Let's begin the interview. " +:+ q_question first_question)];
                evaluation := Some ∅;
                current_question := Some first_question;
                awaiting_clarification := None;
                interview_complete := None |}
      | _ => Raise (ValueError "Invalid scenario format")
      end
  end.

(** The driver of a session: every turn submits a response; the chains may
    answer differently at each turn, so each turn comes with its oracle. *)
Fixpoint run_turns (turns : list (string * Oracle)) (w : World) : World :=
  match turns with
  | [] => w
  | (response, o) :: rest => run_turns rest (fst (process_response o response w))
  end.

Definition new_world (s : Session) : World := {| w_session := s; w_calls := [] |}.

(** The follow-up question the clarification chain asks for, if it returned
    one. *)
Definition asks_clarification (o : Oracle) (question response : string) : option string :=
  match clarification_chain o question response with
  | Some r => if needs_clarification r then clarification_question r else None
  | None => None
  end.

(** The analysis recorded for a response: the chain's, or the default. *)
Definition recorded_analysis (o : Oracle) (question response : string) : gmap string PyVal :=
  match analysis_chain o question response with
  | Some a => analysis_dict a
  | None => default_analysis
  end.

(** An oracle whose clarification chain always raises, and one whose
    clarification chain always answers that no clarification is needed. *)
Definition failing_clarification (o : Oracle) : Oracle :=
  {| clarification_chain := fun _ _ => None;
     analysis_chain := analysis_chain o;
     next_question_chain := next_question_chain o |}.

Definition declining_clarification (why : string) (o : Oracle) : Oracle :=
  {| clarification_chain := fun _ _ =>
       Some {| needs_clarification := false; clarification_question := None;
               clar_reasoning := why |};
     analysis_chain := analysis_chain o;
     next_question_chain := next_question_chain o |}.

(** An oracle whose analysis chain always raises, and one whose analysis
    chain always answers with the neutral scores. *)
Definition failing_analysis (o : Oracle) : Oracle :=
  {| clarification_chain := clarification_chain o;
     analysis_chain := fun _ _ => None;
     next_question_chain := next_question_chain o |}.

Definition neutral_analysis (o : Oracle) : Oracle :=
  {| clarification_chain := clarification_chain o;
     analysis_chain := fun _ _ =>
       Some {| relevance_score := 5; completeness_score := 5; clarity_score := 5;
               technical_accuracy_score := 5; professional_tone_score := 5;
               reasoning := "Analysis failed due to an error." |};
     next_question_chain := next_question_chain o |}.

(** A session whose keys are all present, as [start_interview] builds it. *)
Definition well_formed (s : Session) (sc : Scenario) (qs : list Question)
    (asked : list string) (h : list Message) (ev : gmap string EvalEntry)
    (cq : Question) : Prop :=
  scenario s = Some sc /\ sc_questions sc = Some qs /\
  questions_asked s = Some asked /\ conversation_history s = Some h /\
  evaluation s = Some ev /\ current_question s = Some cq.

(** Invariant of a session driven by the engine alone: the asked ids are
    pairwise distinct ids of the scenario, the current question is among
    them, every other asked id has its analysis, and a complete session has
    an analysis for every question of the scenario. *)
Definition engine_inv (qs : list Question) (s : Session) : Prop :=
  exists sc asked h ev cq,
    well_formed s sc qs asked h ev cq /\
    NoDup asked /\
    (forall i, i ∈ asked -> i ∈ map q_id qs) /\
    q_id cq ∈ asked /\
    (forall i, i ∈ asked -> i = q_id cq \/ is_Some (ev !! i)) /\
    (interview_complete s = Some true -> forall q, q ∈ qs -> is_Some (ev !! q_id q)).

(** Every recorded analysis is the default one. *)
Definition all_default (s : Session) : Prop :=
  forall ev i e, evaluation s = Some ev -> ev !! i = Some e ->
    ev_analysis e = default_analysis.

(** Turns still needed before the session is complete (an upper bound). *)
Definition remaining (qs : list Question) (s : Session) : nat :=
  match interview_complete s with
  | Some true => 0
  | _ => S (List.length qs - List.length (default [] (questions_asked s)))
  end.

(** The analysis chain raises at every call. *)
Definition analysis_fails (o : Oracle) : Prop :=
  forall q r, analysis_chain o q r = None.

(** The clarification chain never asks a follow-up question. *)
Definition never_clarifies (o : Oracle) : Prop :=
  forall q r, asks_clarification o q r = None.

(** [quiet_turns n turns]: at least [n] of the turns are not interrupted by
    a clarification, whatever the question and the response. *)
Inductive quiet_turns : nat -> list (string * Oracle) -> Prop :=
| quiet_none turns : quiet_turns 0 turns
| quiet_here n response o turns :
    never_clarifies o -> quiet_turns n turns -> quiet_turns (S n) ((response, o) :: turns)
| quiet_later n turn turns :
    quiet_turns n turns -> quiet_turns n (turn :: turns).

(** The identifier extraction as the specification words it: a leading
    ["ID: "] prefix is stripped, then the text after a comma (white space
    around the result is trimmed as well). *)
Definition strip_leading (p s : string) : string :=
  if PyStr.startswith p s then String.substring (String.length p) (String.length s) s else s.

Definition spec_clean_id (answer : string) : string :=
  PyStr.strip (PyStr.split_head "," (strip_leading "ID: " (PyStr.strip answer))).

(** The analysis the specification describes for a failed analysis call:
    5 on seven axes and the reasoning text without the final period. *)
Definition spec_fallback_analysis (a : gmap string PyVal) : Prop :=
  Forall (fun axis => a !! axis = Some (VInt 5))
    ["relevance_score"; "completeness_score"; "clarity_score";
     "technical_accuracy_score"; "professional_tone_score";
     "grammar_score"; "vocabulary_score"] /\
  a !! "reasoning" = Some (VStr "Analysis failed due to an error").


(* ===================================================================== *)
(** ** The durable store ([storage.py]) *)
(* ===================================================================== *)

(** [evaluation.DetailedEvaluation]: the seven scores of the report. *)
Record DetailedEvaluation := {
de_relevance_score : Z;
de_completeness_score : Z;
de_clarity_score : Z;
de_technical_accuracy_score : Z;
de_professional_tone_score : Z;
de_grammar_score : Z;
de_vocabulary_score : Z;
de_reasoning : string;
de_strengths : list string;
de_weaknesses : list string
}.

(** [evaluation.OverallEvaluation]. *)
Record OverallEvaluation := {
oe_technical_skills_score : Z;
oe_communication_score : Z;
oe_problem_solving_score : Z;
oe_domain_knowledge_score : Z;
oe_overall_score : Z;
oe_key_strengths : list string;
oe_improvement_areas : list string;
oe_hiring_recommendation : string;
oe_reasoning : string
}.

(** The report dict of [generate_evaluation_report] (the time stamp and the
    difficulty and topics of the scenario are not modelled). *)
Record Report := {
rep_scenario_id : string;
rep_scenario_title : string;
rep_scenario_description : string;
rep_final_summary : string;
rep_detailed_evaluations : list (string * DetailedEvaluation);
rep_overall_evaluation : OverallEvaluation
}.

(** Rows of the four tables.  Row ids and time stamps are left out; rows are
    kept in insertion order, which is the order of their time stamps. *)
Record SessionRow := {
row_session_id : string;
row_scenario_id : string;
row_status : string
}.

Record ResponseRow := {
resp_session_id : string;
resp_question_id : string;
resp_response_text : string
}.

Inductive EvaluationData :=
| DetailedData (question_id : string) (evaluation : DetailedEvaluation)
| OverallData (evaluation : OverallEvaluation).

Record EvaluationRow := {
eval_session_id : string;
eval_type : string;
eval_data : EvaluationData
}.

Record ReportRow := {
report_session_id : string;
report_data : Report
}.

(** A committed write.  Every storage function commits before it returns,
    so the journal lists the writes in the order in which they became
    durable. *)
Inductive Write :=
| WSession (session_id : string)
| WStatus (session_id status : string)
| WResponse (session_id question_id : string)
| WEvaluation (session_id evaluation_type : string)
| WReport (session_id : string).

#[global] Instance Write_eq_dec : EqDecision Write.
Proof. solve_decision. Defined.

Record Db := {
sessions : list SessionRow;
responses : list ResponseRow;
evaluations : list EvaluationRow;
reports : list ReportRow;
journal : list Write
}.

Definition empty_db : Db :=
  {| sessions := []; responses := []; evaluations := []; reports := []; journal := [] |}.

(** [create_session]; [new_id] is the identifier [uuid.uuid4] produced. *)
Definition create_session (new_id scenario_id : string) (db : Db) : Db :=
  {| sessions := sessions db ++
       [{| row_session_id := new_id; row_scenario_id := scenario_id;
           row_status := "started" |}];
     responses := responses db; evaluations := evaluations db; reports := reports db;
     journal := journal db ++ [WSession new_id] |}.

(** [update_session_status]: an unconditional [UPDATE ... WHERE session_id]. *)
Definition update_session_status (session_id status : string) (db : Db) : Db :=
  {| sessions :=
       map (fun r => if bool_decide (row_session_id r = session_id)
                     then {| row_session_id := row_session_id r;
                             row_scenario_id := row_scenario_id r;
                             row_status := status |}
                     else r) (sessions db);
     responses := responses db; evaluations := evaluations db; reports := reports db;
     journal := journal db ++ [WStatus session_id status] |}.

Definition store_response (session_id question_id response_text : string) (db : Db) : Db :=
  {| sessions := sessions db;
     responses := responses db ++
       [{| resp_session_id := session_id; resp_question_id := question_id;
           resp_response_text := response_text |}];
     evaluations := evaluations db; reports := reports db;
     journal := journal db ++ [WResponse session_id question_id] |}.

Definition store_evaluation (session_id evaluation_type : string) (data : EvaluationData)
    (db : Db) : Db :=
  {| sessions := sessions db; responses := responses db;
     evaluations := evaluations db ++
       [{| eval_session_id := session_id; eval_type := evaluation_type;
           eval_data := data |}];
     reports := reports db;
     journal := journal db ++ [WEvaluation session_id evaluation_type] |}.

Definition store_report (session_id : string) (report : Report) (db : Db) : Db :=
  {| sessions := sessions db; responses := responses db; evaluations := evaluations db;
     reports := reports db ++ [{| report_session_id := session_id; report_data := report |}];
     journal := journal db ++ [WReport session_id] |}.

Definition get_session (session_id : string) (db : Db) : option SessionRow :=
  List.find (fun r => bool_decide (row_session_id r = session_id)) (sessions db).

Definition get_session_responses (session_id : string) (db : Db) : list ResponseRow :=
  filter (fun r => resp_session_id r = session_id) (responses db).

Definition get_session_evaluations (session_id : string) (db : Db) : list EvaluationRow :=
  filter (fun r => eval_session_id r = session_id) (evaluations db).

Definition get_session_reports (session_id : string) (db : Db) : list ReportRow :=
  filter (fun r => report_session_id r = session_id) (reports db).

Definition session_status (session_id : string) (db : Db) : option string :=
  row_status <$> get_session session_id db.

(* ===================================================================== *)
(** ** The report compiler ([evaluation.py]) *)
(* ===================================================================== *)

(** [d[k] = v] on a dict kept as an association list in insertion order. *)
Fixpoint dict_set {V} (k : string) (v : V) (d : list (string * V)) : list (string * V) :=
  match d with
  | [] => [(k, v)]
  | (k', v') :: d' => if bool_decide (k' = k) then (k, v) :: d' else (k', v') :: dict_set k v d'
  end.

(** Question text of the first question with the given id, [""] if none. *)
Definition question_text (qs : list Question) (question_id : string) : string :=
  match List.find (fun q => bool_decide (q_id q = question_id)) qs with
  | Some q => q_question q
  | None => ""
  end.

(** The chains of the report compiler; the overall chain reads the title,
    the description, the summary and the detailed evaluations. *)
Record EvalOracle := {
detailed_eval_chain : string -> string -> option DetailedEvaluation;
overall_eval_chain :
  string -> string -> string -> list DetailedEvaluation -> option OverallEvaluation
}.

(** The loop of [generate_evaluation_report] (lines 165-179): [None] when
    [evaluate_response] raises. *)
Fixpoint evaluate_responses (eo : EvalOracle) (qs : list Question)
    (items : list (string * string)) (acc : list (string * DetailedEvaluation))
    : option (list (string * DetailedEvaluation)) :=
  match items with
  | [] => Some acc
  | (question_id, response) :: rest =>
      let text := question_text qs question_id in
      if bool_decide (text = "") then evaluate_responses eo qs rest acc
      else match detailed_eval_chain eo text response with
           | None => None
           | Some e => evaluate_responses eo qs rest (dict_set question_id e acc)
           end
  end.

(** [generate_evaluation_report]: [None] when it raises. *)
Definition generate_evaluation_report (eo : EvalOracle) (sc : Scenario)
    (responses : list (string * string)) (final_summary : string) : option Report :=
  detailed ← evaluate_responses eo (default [] (sc_questions sc)) responses [];
  overall ← overall_eval_chain eo (default "" (sc_title sc)) (default "" (sc_description sc))
               final_summary (map snd detailed);
  Some {| rep_scenario_id := sc_id sc;
          rep_scenario_title := default "" (sc_title sc);
          rep_scenario_description := default "" (sc_description sc);
          rep_final_summary := final_summary;
          rep_detailed_evaluations := detailed;
          rep_overall_evaluation := overall |}.

(* ===================================================================== *)
(** ** The session orchestrator ([handler.py]) *)
(* ===================================================================== *)

(** What a call of the orchestrator depends on besides the store: the
    loaded scenarios, the chains, the interview runner and the file system.
    [run_interview] is imported from [domains.recruitment.graph], which is
    not part of the sources: it is a parameter, [None] when it raises,
    [Some None] when its result has no ["final_summary"]. *)
Record Env := {
env_scenarios : list Scenario;
env_engine : Oracle;
env_run_interview : list string -> option (option string);
env_eval : EvalOracle;
env_export_ok : bool
}.

(** The dict sent back to the presentation layer. *)
Record SessionInfo := {
si_session_id : string;
si_scenario_id : string;
si_scenario_title : string;
si_scenario_description : string;
si_current_question : Question;
si_awaiting_clarification : option bool;
si_conversation_history : list (string * string)
}.

Inductive HandlerResult :=
| HError (message : string)
| HInfo (info : SessionInfo)
| HCompleted (session_id : string) (report : Report).

(** Role tagging of lines 106-112 and 230-236. *)
Definition role_tagged (m : Message) : string * string :=
  match m with
  | SystemMessage c => ("system", c)
  | AIMessage c => ("assistant", c)
  | HumanMessage c => ("user", c)
  end.

(** Lines 290-310: the evaluations and the report are written. *)
Definition store_detailed (session_id : string)
    (detailed : list (string * DetailedEvaluation)) (db : Db) : Db :=
  fold_left (fun d item => store_evaluation session_id "detailed"
                             (DetailedData (fst item) (snd item)) d) detailed db.

(** [complete_interview] (lines 252-334); [responses] are the pairs
    (question id, response text). *)
Definition complete_interview (env : Env) (session_id : string) (sc : Scenario)
    (responses : list (string * string)) (db : Db) : Db * HandlerResult :=
  let db1 := update_session_status session_id "completed" db in
  let response_dict := fold_left (fun d r => dict_set (fst r) (snd r) d) responses [] in
  let candidate_responses := map snd responses in
  let failed db' := (update_session_status session_id "error" db',
                     HError "Failed to complete interview") in
  match env_run_interview env candidate_responses with
  | None => failed db1
  | Some interview_result =>
      let final_summary := default "" interview_result in
      match generate_evaluation_report (env_eval env) sc response_dict final_summary with
      | None => failed db1
      | Some report =>
          let db2 := store_detailed session_id (rep_detailed_evaluations report) db1 in
          let db3 := store_evaluation session_id "overall"
                       (OverallData (rep_overall_evaluation report)) db2 in
          let db4 := store_report session_id report db3 in
          if env_export_ok env then (db4, HCompleted session_id report)
          else failed db4
      end
  end.

(** Lines 150-166: the history rebuilt from the stored responses. *)
Definition rebuilt_history (qs : list Question) (rs : list ResponseRow) : list Message :=
  SystemMessage "You are an HR interviewer conducting a technical assessment interview." ::
  flat_map (fun r => [AIMessage (question_text qs (resp_question_id r));
                      HumanMessage (resp_response_text r)]) rs.

(** Lines 168-180: the question the response is taken to answer.  [Raise]
    stands for the [IndexError] of an empty question list. *)
Definition handler_current_question (qs : list Question) (asked : list string)
    : Res (option Question) :=
  match asked with
  | [] => match qs with
          | q :: _ => Ok (Some q)
          | [] => Raise IndexError
          end
  | _ => Ok (List.find (fun q => bool_decide (q_id q ∉ asked)) qs)
  end.

Definition response_pairs (rs : list ResponseRow) : list (string * string) :=
  map (fun r => (resp_question_id r, resp_response_text r)) rs.

(** [handler.process_response] (lines 121-250). *)
Definition handle_response (env : Env) (session_id response : string) (db : Db)
    : Db * HandlerResult :=
  let failed := HError "Failed to process response" in
  match get_session session_id db with
  | None => (db, HError "Session not found")
  | Some session_data =>
      match get_scenario_by_id (env_scenarios env) (row_scenario_id session_data) with
      | None => (db, failed)
      | Some sc =>
          let rs := get_session_responses session_id db in
          match sc_questions sc with
          | None => (db, failed)
          | Some qs =>
              let history := rebuilt_history qs rs in
              let asked := map resp_question_id rs in
              match handler_current_question qs asked with
              | Raise _ => (db, failed)
              | Ok None => complete_interview env session_id sc (response_pairs rs) db
              | Ok (Some cq) =>
                  let session :=
                    {| scenario := Some sc; current_question_index := None;
                       questions_asked := Some asked;
                       conversation_history := Some (history ++ [AIMessage (q_question cq)]);
                       evaluation := Some ∅; current_question := Some cq;
                       awaiting_clarification := None; interview_complete := None |} in
                  match process_response (env_engine env) response (new_world session) with
                  | (_, Raise _) => (db, failed)
                  | (_, Ok updated) =>
                      let db1 := store_response session_id (q_id cq) response db in
                      let all_responses := response_pairs rs ++ [(q_id cq, response)] in
                      if default false (interview_complete updated)
                      then complete_interview env session_id sc all_responses db1
                      else
                        match sc_title sc, sc_description sc,
                              current_question updated, conversation_history updated with
                        | Some title, Some descr, Some current, Some h =>
                            if bool_decide (List.length qs <=
                                            List.length (default [] (questions_asked updated)))
                            then complete_interview env session_id sc all_responses db1
                            else (db1,
                                  HInfo {| si_session_id := session_id;
                                           si_scenario_id := sc_id sc;
                                           si_scenario_title := title;
                                           si_scenario_description := descr;
                                           si_current_question := current;
                                           si_awaiting_clarification :=
                                             Some (default false (awaiting_clarification updated));
                                           si_conversation_history := map role_tagged h |})
                        | _, _, _, _ => (db1, failed)
                        end
                  end
              end
          end
      end
  end.

(** [start_interview_session] (lines 63-119); [new_id] is the identifier
    drawn by [create_session], [rnd] the draw of [random.choice]. *)
Definition start_interview_session (env : Env) (new_id : string) (rnd : nat)
    (scenario_id : option string) (db : Db) : Db * HandlerResult :=
  let failed := HError "Failed to start interview" in
  let selected :=
    match scenario_id with
    | Some i =>
        if bool_decide (i = "") then Ok (select_random_scenario (env_scenarios env) rnd)
        else match get_scenario_by_id (env_scenarios env) i with
             | Some sc => Ok (Some sc)
             | None => Raise (KeyError i)
             end
    | None => Ok (select_random_scenario (env_scenarios env) rnd)
    end in
  match selected with
  | Raise _ => (db, HError "Scenario not found")
  | Ok None => (db, failed)
  | Ok (Some sc) =>
      let db1 := create_session new_id (sc_id sc) db in
      match start_interview (env_scenarios env) rnd (Some (sc_id sc)) with
      | Raise _ => (db1, failed)
      | Ok session =>
          match sc_title sc, sc_description sc,
                current_question session, conversation_history session with
          | Some title, Some descr, Some current, Some h =>
              (db1, HInfo {| si_session_id := new_id;
                             si_scenario_id := sc_id sc;
                             si_scenario_title := title;
                             si_scenario_description := descr;
                             si_current_question := current;
                             si_awaiting_clarification := None;
                             si_conversation_history := map role_tagged h |})
          | _, _, _, _ => (db1, failed)
          end
      end
  end.

(* ===================================================================== *)
(** ** Staged scenarios ([new_scenario_manager.py]) *)
(* ===================================================================== *)

Module NewScenarioManager.

(** The data of a stage: [{"agent_goals": [...]}], the key being optional. *)
Record StageData := { agent_goals : option (list string) }.

(** A scenario of either format.  Only the presence of [context] and
    [customer_profile] is observed; [conversation_flow] is a dict whose
    order is observed, kept as an association list. *)
Record NewScenario := {
ns_id : option string;
ns_context : option (list (string * string));
ns_customer_profile : option (list (string * string));
ns_conversation_flow : option (list (string * StageData))
}.

(** The two module-level lists. *)
Record Loaded := {
_scenarios : list NewScenario;
_new_scenarios : list NewScenario
}.

(** The question-like dict built for a stage. *)
Record StageQuestion := {
sq_id : string;
sq_stage : string;
sq_agent_goals : list string;
sq_question : string
}.

Definition has_id (scenario_id : string) (sc : NewScenario) : bool :=
  bool_decide (ns_id sc = Some scenario_id).

(** [get_scenario_by_id]: the traditional list first, then the new one. *)
Definition get_scenario_by_id (l : Loaded) (scenario_id : string) : option NewScenario :=
  match List.find (has_id scenario_id) (_scenarios l) with
  | Some sc => Some sc
  | None => List.find (has_id scenario_id) (_new_scenarios l)
  end.

(** [is_new_format_scenario]: the three fields are present. *)
Definition is_new_format_scenario (sc : NewScenario) : bool :=
  bool_decide (is_Some (ns_context sc)) &&
  bool_decide (is_Some (ns_customer_profile sc)) &&
  bool_decide (is_Some (ns_conversation_flow sc)).

(** [stages.index(x)]: position of the first occurrence. *)
Fixpoint index (x : string) (l : list string) : option nat :=
  match l with
  | [] => None
  | y :: l' => if bool_decide (y = x) then Some 0 else S <$> index x l'
  end.

(** [conversation_flow[name]] *)
Definition flow_item (flow : list (string * StageData)) (name : string) : option StageData :=
  snd <$> List.find (fun kv => bool_decide (fst kv = name)) flow.

Definition stage_question (name : string) (data : StageData) : StageQuestion :=
  {| sq_id := "stage_" +:+ name;
     sq_stage := name;
     sq_agent_goals := default [] (agent_goals data);
     sq_question := "Handle the " +:+ name +:+ " stage of the conversation" |}.

(** [get_next_conversation_stage] (lines 316-379). *)
Definition get_next_conversation_stage (l : Loaded) (scenario_id : string)
    (current_stage : option string) : option StageQuestion :=
  match get_scenario_by_id l scenario_id with
  | None => None
  | Some sc =>
      if negb (is_new_format_scenario sc) then None
      else
        let conversation_flow := default [] (ns_conversation_flow sc) in
        match conversation_flow with
        | [] => None
        | _ =>
            let stages := map fst conversation_flow in
            match current_stage with
            | None =>
                first_stage ← stages !! 0;
                stage_data ← flow_item conversation_flow first_stage;
                Some (stage_question first_stage stage_data)
            | Some current =>
                match index current stages with
                | None => None
                | Some current_index =>
                    if bool_decide (current_index + 1 < List.length stages) then
                      next_stage ← stages !! (current_index + 1);
                      stage_data ← flow_item conversation_flow next_stage;
                      Some (stage_question next_stage stage_data)
                    else None
                end
            end
        end
  end.

Definition as_question (kv : string * StageData) : StageQuestion :=
  stage_question (fst kv) (snd kv).

(** The scenario is found under its id, is staged, and its flow (a dict,
    whose keys are pairwise distinct) is [flow]. *)
Definition staged (l : Loaded) (scenario_id : string)
    (flow : list (string * StageData)) : Prop :=
  exists sc,
    get_scenario_by_id l scenario_id = Some sc /\
    is_new_format_scenario sc = true /\
    ns_conversation_flow sc = Some flow /\
    NoDup (map fst flow).

(** A caller that walks the flow: it starts from [None] and feeds the stage
    of each result back, until [None] is returned (at most [fuel] calls). *)
Fixpoint walk (l : Loaded) (scenario_id : string) (fuel : nat)
    (current_stage : option string) : list StageQuestion :=
  match fuel with
  | 0 => []
  | S fuel' =>
      match get_next_conversation_stage l scenario_id current_stage with
      | None => []
      | Some q => q :: walk l scenario_id fuel' (Some (sq_stage q))
      end
  end.

(** A staged scenario with three stages, loaded next to a traditional
    scenario. *)
Definition support_flow : list (string * StageData) :=
  [("greeting", {| agent_goals := Some ["greet"] |});
   ("diagnosis", {| agent_goals := None |});
   ("closing", {| agent_goals := Some ["summarise"; "thank"] |})].

Definition loaded_example : Loaded :=
  {| _scenarios :=
       [{| ns_id := Some "backend"; ns_context := None; ns_customer_profile := None;
           ns_conversation_flow := None |}];
     _new_scenarios :=
       [{| ns_id := Some "support"; ns_context := Some [("product", "router")];
           ns_customer_profile := Some [("name", "Ada")];
           ns_conversation_flow := Some support_flow |}] |}.

End NewScenarioManager.

(* ===================================================================== *)
(** ** The summarization reducer ([summary.py], [tools.py]) *)
(* ===================================================================== *)

Module Summarizer.

Inductive ChainCall :=
| MapCall (document : string)
| ReduceCall (document : string).

(** The language model: its token counter, and what the map chain and the
    reduce chain answer once their prompt is filled with a text ([None]:
    the chain raised). *)
Record Llm := {
get_num_tokens : string -> nat;
map_chain : string -> option string;
reduce_chain : string -> option string
}.

(** Exceptions of a summarization: the [ValueError] for empty contents
    ([tools.py] line 89), the [TypeError] of [async for] over a coroutine
    object (line 104), the [KeyError] of a prompt whose input variable is
    missing from the input dict, and a chain that raised. *)
Inductive SummaryError :=
| NoContents
| AsyncForTypeError
| PromptKeyError
| ChainFailed.

(** What a call leaves: the chain calls made, the collapse rounds
    completed, and the final summary or the exception raised. *)
Record Run := {
run_calls : list ChainCall;
run_rounds : nat;
run_result : SummaryError + string
}.

(** [PromptTemplate.invoke] on a dict, for a prompt with one input variable:
    the value under that key, [None] (a [KeyError]) when the dict does not
    have the key. *)
Definition prompt_input (variable : string) (input : list (string * string))
    : option string :=
  snd <$> List.find (fun kv => bool_decide (fst kv = variable)) input.

(** The input variable of [SUMMARY_MAP_TEMPLATE] and the one of
    [REDUCE_TEMPLATE] ([prompts.py], lines 90 and 106, 287-301). *)
Definition SUMMARY_MAP_VARIABLE : string := "document".
Definition REDUCE_VARIABLE : string := "document".

(** The graph [create_summarization_graph] compiles, as the data its nodes
    are built from.  Running a compiled graph is the work of the graph
    runtime, which is library code; no function of the repository gets as
    far as running it (see [summarize_interview_history]), so the runtime is
    not modelled. *)
Record CompiledGraph := {
graph_llm : Llm;
graph_chunk_size : nat
}.

(** The value of the call [graph.ainvoke(input, config)]: [ainvoke] is an
    [async def], so the call returns a coroutine object, the run suspended
    before its first step. *)
Inductive Coroutine :=
| Pending (graph : CompiledGraph) (contents : list string) (recursion_limit : nat).

Definition ainvoke (graph : CompiledGraph) (contents : list string)
    (recursion_limit : nat) : Coroutine :=
  Pending graph contents recursion_limit.

(** [async for step in c] for a coroutine object [c]: a coroutine object has
    no [__aiter__], so the statement raises [TypeError] before the body of
    the loop is entered; [c] is never awaited, so nothing of the suspended
    run happens. *)
Definition async_for (c : Coroutine) : SummaryError := AsyncForTypeError.

Section Graph.

Variable llm : Llm.
(** [config_settings.SUMMARIZATION_CHUNK_SIZE] *)
Variable SUMMARIZATION_CHUNK_SIZE : nat.

(** [length_function] (lines 33-34). *)
Definition length_function (documents : list string) : nat :=
  list_sum (map (get_num_tokens llm) documents).

(** A chain [prompt | llm | parser] invoked on a dict: the prompt is filled
    first, and raises when its variable is missing; only then is the model
    called. *)
Definition invoke_chain (variable : string) (chain : string -> option string)
    (call : string -> ChainCall) (input : list (string * string))
    : list ChainCall * (SummaryError + string) :=
  match prompt_input variable input with
  | None => ([], inl PromptKeyError)
  | Some document =>
      ([call document],
       match chain document with
       | Some answer => inr answer
       | None => inl ChainFailed
       end)
  end.

(** The node [generate_summary] (lines 36-39): the map chain is invoked
    with the key ["context"]. *)
Definition generate_summary (content : string)
    : list ChainCall * (SummaryError + string) :=
  invoke_chain SUMMARY_MAP_VARIABLE (map_chain llm) MapCall [("context", content)].

(** [should_collapse] (lines 64-72). *)
Definition should_collapse (collapsed_summaries : list string) : bool :=
  bool_decide (SUMMARIZATION_CHUNK_SIZE < length_function collapsed_summaries).

Definition docs_text (docs : list string) : string :=
  PyStr.join (PyStr.newline +:+ PyStr.newline) docs.

(** The node [generate_final_summary] (lines 74-78): the reduce chain is
    invoked with the key ["docs"]. *)
Definition generate_final_summary (collapsed_summaries : list string)
    : list ChainCall * (SummaryError + string) :=
  invoke_chain REDUCE_VARIABLE (reduce_chain llm) ReduceCall
    [("docs", docs_text collapsed_summaries)].

(** [create_summarization_graph] (lines 25-94). *)
Definition create_summarization_graph : CompiledGraph :=
  {| graph_llm := llm; graph_chunk_size := SUMMARIZATION_CHUNK_SIZE |}.

(** [tools.summarize_interview_history] (lines 73-121).  With contents, the
    graph is compiled and [ainvoke] is called, but its coroutine is handed
    to [async for] instead of being awaited: the [TypeError] is logged and
    raised again (lines 117-119), and no node of the graph has run. *)
Definition summarize_interview_history (contents : list string) : Run :=
  match contents with
  | [] => {| run_calls := []; run_rounds := 0; run_result := inl NoContents |}
  | _ =>
      let summarization_graph := create_summarization_graph in
      {| run_calls := []; run_rounds := 0;
         run_result := inl (async_for (ainvoke summarization_graph contents 10)) |}
  end.

(** [master_agent.run_evaluation_tools], lines 130-161: the contents are the
    role-tagged messages other than system messages, and the summary is the
    placeholder when the summarization raises. *)
Definition interview_contents (history : list Message) : list string :=
  omap (fun m => match m with
                 | HumanMessage c => Some ("Candidate: " +:+ c)
                 | AIMessage c => Some ("Interviewer: " +:+ c)
                 | SystemMessage _ => None
                 end) history.

Definition run_evaluation_tools_summary (history : list Message) : string :=
  match run_result (summarize_interview_history (interview_contents history)) with
  | inr summary => summary
  | inl _ => "Error generating summary."
  end.

End Graph.

(** A model whose documents all count 600 tokens and whose chains answer
    with a fixed text. *)
Definition flat_llm : Llm :=
  {| get_num_tokens := fun _ => 600;
     map_chain := fun _ => Some "summary of one exchange";
     reduce_chain := fun _ => Some "combined summary" |}.

End Summarizer.

(** Concrete data for the examples. *)
Module Ex.
Definition q1 : Question := {| q_id := "q1"; q_question := "Design the services." |}.
Definition q2 : Question := {| q_id := "q2"; q_question := "Design the API." |}.
Definition q3 : Question := {| q_id := "q3"; q_question := "Design the schema." |}.

Definition three : Scenario :=
  {| sc_id := "backend"; sc_title := Some "Backend"; sc_description := Some "E-commerce";
     sc_questions := Some [q1; q2; q3] |}.

Definition two : Scenario :=
  {| sc_id := "api"; sc_title := Some "API"; sc_description := Some "REST";
     sc_questions := Some [q1; q2] |}.

Definition scores (n : Z) : ResponseAnalysis :=
  {| relevance_score := n; completeness_score := n; clarity_score := n;
     technical_accuracy_score := n; professional_tone_score := n;
     reasoning := "ok" |}.

Definition no_clarification : ClarificationResponse :=
  {| needs_clarification := false; clarification_question := None;
     clar_reasoning := "clear" |}.

Definition please_elaborate : ClarificationResponse :=
  {| needs_clarification := true; clarification_question := Some "please elaborate";
     clar_reasoning := "vague" |}.

(** Every chain raises. *)
Definition all_fail : Oracle :=
  {| clarification_chain := fun _ _ => None;
     analysis_chain := fun _ _ => None;
     next_question_chain := fun _ _ _ _ => None |}.

(** The chains answer; the next-question chain answers [pick]. *)
Definition picks (pick : string) : Oracle :=
  {| clarification_chain := fun _ _ => Some no_clarification;
     analysis_chain := fun _ _ => Some (scores 7);
     next_question_chain := fun _ _ _ _ => Some pick |}.

(** The clarification chain asks to elaborate. *)
Definition clarifies : Oracle :=
  {| clarification_chain := fun _ _ => Some please_elaborate;
     analysis_chain := fun _ _ => Some (scores 7);
     next_question_chain := fun _ _ _ _ => Some "q2" |}.

(** Only the next-question chain raises. *)
Definition selection_fails : Oracle :=
  {| clarification_chain := fun _ _ => Some no_clarification;
     analysis_chain := fun _ _ => Some (scores 7);
     next_question_chain := fun _ _ _ _ => None |}.

Definition opening : list Message :=
  [SystemMessage SYSTEM_PROMPT;
   AIMessage ("Let's begin the interview. " +:+ q_question q1)].

(** The session [start_interview] builds for [three] and for [two]. *)
Definition started (sc : Scenario) : Session :=
  {| scenario := Some sc; current_question_index := Some 0;
     questions_asked := Some ["q1"];
     conversation_history := Some opening;
     evaluation := Some ∅; current_question := Some q1;
     awaiting_clarification := None; interview_complete := None |}.

(** Chains of the report compiler that answer, and that raise. *)
Definition detailed (n : Z) : DetailedEvaluation :=
  {| de_relevance_score := n; de_completeness_score := n; de_clarity_score := n;
     de_technical_accuracy_score := n; de_professional_tone_score := n;
     de_grammar_score := n; de_vocabulary_score := n; de_reasoning := "ok";
     de_strengths := []; de_weaknesses := [] |}.

Definition overall (n : Z) : OverallEvaluation :=
  {| oe_technical_skills_score := n; oe_communication_score := n;
     oe_problem_solving_score := n; oe_domain_knowledge_score := n;
     oe_overall_score := n; oe_key_strengths := []; oe_improvement_areas := [];
     oe_hiring_recommendation := "Recommend"; oe_reasoning := "ok" |}.

Definition eval_ok : EvalOracle :=
  {| detailed_eval_chain := fun _ _ => Some (detailed 7);
     overall_eval_chain := fun _ _ _ _ => Some (overall 7) |}.

Definition eval_fails : EvalOracle :=
  {| detailed_eval_chain := fun _ _ => None;
     overall_eval_chain := fun _ _ _ _ => None |}.

(** An environment in which everything but the engine's chains works, and
    one in which the report compiler's chains raise. *)
Definition env (o : Oracle) : Env :=
  {| env_scenarios := [three; two]; env_engine := o;
     env_run_interview := fun _ => Some (Some "summary");
     env_eval := eval_ok; env_export_ok := true |}.

Definition env_report_fails (o : Oracle) : Env :=
  {| env_scenarios := [three; two]; env_engine := o;
     env_run_interview := fun _ => Some (Some "summary");
     env_eval := eval_fails; env_export_ok := true |}.

(** The store after [start_interview_session] for scenario [two]. *)
Definition db_started : Db := create_session "s1" "api" empty_db.
End Ex.

(* ===================================================================== *)
(** ** Further functions of the store and of the orchestrator *)
(* ===================================================================== *)

(** [p in s] for strings. *)
Fixpoint str_contains (p s : string) : bool :=
  PyStr.startswith p s ||
  match s with
  | EmptyString => false
  | String _ s' => str_contains p s'
  end.

(** [storage.get_session_report]: the most recent report of the session
    ([ORDER BY timestamp DESC LIMIT 1]). *)
Definition get_session_report (session_id : string) (db : Db) : option ReportRow :=
  last (get_session_reports session_id db).






(** The loop of [handler.run_single_interview] (lines 493-502): responses
    are submitted until one is answered by an error or by the completion;
    [None] when the responses run out first.  Each submission takes a
    permit of the semaphore and gives it back; the loop is entered only
    when one is left (see [run_single_interview]). *)
Fixpoint submit_responses (env : Env) (session_id : string) (rs : list string) (db : Db)
    : Db * option HandlerResult :=
  match rs with
  | [] => (db, None)
  | response :: rest =>
      match handle_response env session_id response db with
      | (db', HInfo _) => submit_responses env session_id rest db'
      | (db', result) => (db', Some result)
      end
  end.

(** [interview_semaphore] (line 47): an [asyncio.Semaphore] with
    [CONCURRENCY_LIMIT] permits.  [acquire free] is [async with
    interview_semaphore] when [free] permits are left and no other task
    gives one back: with a permit left the body runs, with one permit less
    ([Some]); with none the task waits for ever ([None]).  The permit is
    given back when the body is left. *)
Definition acquire (free : nat) : option nat :=
  match free with
  | 0 => None
  | S spare => Some spare
  end.

Inductive SingleInterviewResult :=
| Finished (result : HandlerResult)
| Incomplete (session_id : string)
| Blocked.

(** [handler.run_single_interview] (lines 467-513), one interview run on its
    own: [free] permits of the semaphore are left when it is called, and no
    other task takes or gives back a permit while it runs.  The run holds a
    permit (line 483) for its whole body; [start_interview_session] (line
    77) and every [process_response] (line 135) take a second one while
    they run and give it back.  [Blocked]: the run waits for a permit for
    ever and never returns. *)
Definition run_single_interview (env : Env) (free : nat) (new_id : string) (rnd : nat)
    (scenario_id : string) (rs : list string) (db : Db) : Db * SingleInterviewResult :=
  match acquire free with
  | None => (db, Blocked)
  | Some spare =>
      match acquire spare with
      | None => (db, Blocked)
      | Some _ =>
          match start_interview_session env new_id rnd (Some scenario_id) db with
          | (db1, HError message) => (db1, Finished (HError message))
          | (db1, HInfo info) =>
              match submit_responses env (si_session_id info) rs db1 with
              | (db2, Some result) => (db2, Finished result)
              | (db2, None) => (db2, Incomplete (si_session_id info))
              end
          | (db1, HCompleted session_id report) =>
              match submit_responses env session_id rs db1 with
              | (db2, Some result) => (db2, Finished result)
              | (db2, None) => (db2, Incomplete session_id)
              end
          end
      end
  end.

(** The chains behind the report and the export never fail. *)
Definition report_always_works (env : Env) : Prop :=
  (forall rs, is_Some (env_run_interview env rs)) /\
  (forall q r, is_Some (detailed_eval_chain (env_eval env) q r)) /\
  (forall t d s es, is_Some (overall_eval_chain (env_eval env) t d s es)) /\
  env_export_ok env = true.

(** What the store holds about one session: its row, its responses, its
    evaluations and its reports. *)
Definition session_view (session_id : string) (db : Db)
    : option SessionRow * list ResponseRow * list EvaluationRow * list ReportRow :=
  (get_session session_id db, get_session_responses session_id db,
   get_session_evaluations session_id db, get_session_reports session_id db).

(** A session row with another status. *)
Definition with_status (status : string) (r : SessionRow) : SessionRow :=
  {| row_session_id := row_session_id r; row_scenario_id := row_scenario_id r;
     row_status := status |}.

(** [scenario_manager.add_scenario] (lines 199-231) on the loaded list;
    [save_ok] tells whether [save_scenarios] can write the file.  The
    scenario is appended before the file is written.  The ["version"] and
    ["last_updated"] keys it sets are not part of [Scenario], and a dict
    without ["id"] is not represented. *)
Definition add_scenario (save_ok : bool) (sc : Scenario) (scenarios : list Scenario)
    : list Scenario * bool :=
  match sc_title sc, sc_description sc, sc_questions sc with
  | Some _, Some _, Some _ =>
      if existsb (fun s => bool_decide (sc_id s = sc_id sc)) scenarios
      then (scenarios, false)
      else (scenarios ++ [sc], save_ok)
  | _, _, _ => (scenarios, false)
  end.

(** [grows db db']: [db'] holds every row of [db], in the same order and
    before any new row; response, evaluation and report rows are unchanged,
    session rows keep their id and their scenario. *)
Definition grows (db db' : Db) : Prop :=
  map (fun r => (row_session_id r, row_scenario_id r)) (sessions db) `prefix_of`
    map (fun r => (row_session_id r, row_scenario_id r)) (sessions db') /\
  responses db `prefix_of` responses db' /\
  evaluations db `prefix_of` evaluations db' /\
  reports db `prefix_of` reports db' /\
  journal db `prefix_of` journal db'.

(* ===================================================================== *)
(** * Properties *)
(* ===================================================================== *)

Section Engine.

Variable o : Oracle.

Lemma select_next_question_eq (w : World) sc qs asked :
  scenario (w_session w) = Some sc ->
  sc_questions sc = Some qs ->
  questions_asked (w_session w) = Some asked ->
  select_next_question o w =
    match available_questions qs asked with
    | [] => (w, Ok None)
    | [q] => (w, Ok (Some q))
    | (first :: _) as available =>
        match conversation_history (w_session w) with
        | None => (w, Ok (Some first))
        | Some h =>
            let title := default "Unknown Scenario" (sc_title sc) in
            let descr := default "No description available" (sc_description sc) in
            let avail := available_questions_text available in
            let hist := conversation_history_text h in
            (logged (CallNextQuestion title descr avail hist) w,
             Ok (Some match next_question_chain o title descr avail hist with
                      | Some answer => match_question available first (clean_id answer)
                      | None => first
                      end))
        end
    end.
Proof.
  intros Hsc Hqs Hasked.
  unfold select_next_question, try_except, bind, read_session.
  assert (session_is_empty (w_session w) = false) as ->.
  { unfold session_is_empty. rewrite Hsc. reflexivity. }
  rewrite Hsc, Hasked, Hqs.
  destruct (available_questions qs asked) as [|q0 [|q1 rest]]; try reflexivity.
  destruct (conversation_history (w_session w)) as [h|]; simpl; [|reflexivity].
  unfold invoke, bind, log_call; simpl.
  destruct (next_question_chain o _ _ _ _); reflexivity.
Qed.

Lemma clarification_check_eq (w : World) response cq h :
  current_question (w_session w) = Some cq ->
  conversation_history (w_session w) = Some h ->
  clarification_check o response w =
    let w1 := logged (CallClarification (q_question cq) response) w in
    match asks_clarification o (q_question cq) response with
    | Some text =>
        (upd (set_awaiting_clarification true)
           (upd (set_conversation_history (h ++ [AIMessage text])) w1), Ok true)
    | None => (w1, Ok false)
    end.
Proof.
  intros Hcq Hh.
  unfold clarification_check, try_except, bind, read_session, invoke, log_call, bind.
  rewrite Hcq. simpl. unfold asks_clarification.
  destruct (clarification_chain o (q_question cq) response) as [r|]; simpl; [|reflexivity].
  destruct (needs_clarification r); simpl; [|reflexivity].
  destruct (clarification_question r) as [text|]; simpl; [|reflexivity].
  unfold append_history, bind, read_session, modify_session. simpl.
  rewrite Hh. reflexivity.
Qed.

Lemma analyze_response_eq (w : World) response cq ev :
  current_question (w_session w) = Some cq ->
  evaluation (w_session w) = Some ev ->
  analyze_response o response w =
    (upd (set_evaluation
            (<[q_id cq := {| ev_question := q_question cq; ev_response := response;
                             ev_analysis := recorded_analysis o (q_question cq) response |}]> ev))
       (logged (CallAnalysis (q_question cq) response) w), Ok tt).
Proof.
  intros Hcq Hev.
  unfold analyze_response, try_except, bind, read_session, invoke, log_call, bind.
  rewrite Hcq. simpl. unfold recorded_analysis.
  destruct (analysis_chain o (q_question cq) response) as [a|]; simpl;
    unfold store_analysis, bind, read_session, modify_session; simpl;
    rewrite ?Hcq; simpl; rewrite Hev; reflexivity.
Qed.

Lemma completion_check_eq (w : World) sc qs asked h :
  scenario (w_session w) = Some sc ->
  sc_questions sc = Some qs ->
  questions_asked (w_session w) = Some asked ->
  conversation_history (w_session w) = Some h ->
  completion_check w =
    if bool_decide (List.length qs <= List.length asked)
    then (upd (set_conversation_history (h ++ [closing_message]))
            (upd (set_interview_complete true) w), Ok true)
    else (w, Ok false).
Proof.
  intros Hsc Hqs Hasked Hh.
  unfold completion_check, try_except_KeyError, bind, read_session.
  rewrite Hasked, Hsc. simpl. rewrite Hqs. simpl.
  destruct (bool_decide (List.length qs <= List.length asked)); [|reflexivity].
  unfold modify_session, append_history, bind, read_session. simpl.
  rewrite Hh. reflexivity.
Qed.

Lemma mark_complete_eq (w : World) h :
  conversation_history (w_session w) = Some h ->
  mark_complete w =
    (upd (set_conversation_history (h ++ [closing_message]))
       (upd (set_interview_complete true) w), Ok tt).
Proof.
  intros Hh. unfold mark_complete, modify_session, append_history, bind, read_session.
  simpl. rewrite Hh. reflexivity.
Qed.

Lemma select_next_step_eq (w : World) sc qs asked h :
  scenario (w_session w) = Some sc ->
  sc_questions sc = Some qs ->
  questions_asked (w_session w) = Some asked ->
  conversation_history (w_session w) = Some h ->
  let finish w' := upd (set_conversation_history (h ++ [closing_message]))
                     (upd (set_interview_complete true) w') in
  let advance q w' :=
    upd (set_conversation_history (h ++ [AIMessage (q_question q)]))
      (upd (set_questions_asked (asked ++ [q_id q]))
         (upd (set_current_question q) w')) in
  select_next_step o w =
    (match available_questions qs asked with
     | [] => finish w
     | [q] => advance q w
     | (first :: _) as available =>
         let title := default "Unknown Scenario" (sc_title sc) in
         let descr := default "No description available" (sc_description sc) in
         let avail := available_questions_text available in
         let hist := conversation_history_text h in
         advance
           match next_question_chain o title descr avail hist with
           | Some answer => match_question available first (clean_id answer)
           | None => first
           end
           (logged (CallNextQuestion title descr avail hist) w)
     end, Ok tt).
Proof.
  intros Hsc Hqs Hasked Hh. simpl.
  unfold select_next_step, try_except. unfold bind at 1.
  rewrite (select_next_question_eq w sc qs asked Hsc Hqs Hasked).
  assert (forall q w0, questions_asked (w_session w0) = Some asked ->
            conversation_history (w_session w0) = Some h ->
            (let* _ := modify_session (set_current_question q) in
             let* _ := append_asked (q_id q) in
             append_history (AIMessage (q_question q))) w0 =
            (upd (set_conversation_history (h ++ [AIMessage (q_question q)]))
               (upd (set_questions_asked (asked ++ [q_id q]))
                  (upd (set_current_question q) w0)), Ok tt)) as Hadv.
  { intros q w0 Ha Hc.
    unfold bind, modify_session, append_asked, append_history, bind, read_session. simpl.
    rewrite Ha. simpl. rewrite Hc. reflexivity. }
  destruct (available_questions qs asked) as [|q0 [|q1 rest]].
  - cbv beta iota. rewrite (mark_complete_eq w h Hh). reflexivity.
  - cbv beta iota. rewrite (Hadv q0 w Hasked Hh). reflexivity.
  - rewrite Hh. cbv beta iota zeta. rewrite Hadv by assumption. reflexivity.
Qed.

(** One turn on a well-formed session, as a closed expression. *)
Lemma process_response_eq (w : World) response sc qs asked h ev cq :
  well_formed (w_session w) sc qs asked h ev cq ->
  let question := q_question cq in
  let h1 := h ++ [HumanMessage response] in
  let w1 := logged (CallClarification question response)
              (upd (set_conversation_history h1) w) in
  let entry := {| ev_question := question; ev_response := response;
                  ev_analysis := recorded_analysis o question response |} in
  let w2 := upd (set_evaluation (<[q_id cq := entry]> ev))
              (logged (CallAnalysis question response)
                 (upd (set_awaiting_clarification false) w1)) in
  let finish w' := upd (set_conversation_history (h1 ++ [closing_message]))
                     (upd (set_interview_complete true) w') in
  let advance q w' :=
    upd (set_conversation_history (h1 ++ [AIMessage (q_question q)]))
      (upd (set_questions_asked (asked ++ [q_id q]))
         (upd (set_current_question q) w')) in
  let w' :=
    match asks_clarification o question response with
    | Some text =>
        upd (set_awaiting_clarification true)
          (upd (set_conversation_history (h1 ++ [AIMessage text])) w1)
    | None =>
        if bool_decide (List.length qs <= List.length asked) then finish w2
        else
          match available_questions qs asked with
          | [] => finish w2
          | [q] => advance q w2
          | (first :: _) as available =>
              let title := default "Unknown Scenario" (sc_title sc) in
              let descr := default "No description available" (sc_description sc) in
              let avail := available_questions_text available in
              let hist := conversation_history_text h1 in
              advance
                match next_question_chain o title descr avail hist with
                | Some answer => match_question available first (clean_id answer)
                | None => first
                end
                (logged (CallNextQuestion title descr avail hist) w2)
          end
    end in
  process_response o response w = (w', Ok (w_session w')).
Proof.
  intros (Hsc & Hqs & Hasked & Hh & Hev & Hcq). simpl.
  unfold process_response, try_except. unfold bind at 1. unfold read_session at 1.
  assert (session_is_empty (w_session w) = false) as ->.
  { unfold session_is_empty. rewrite Hsc. reflexivity. }
  rewrite Hcq. unfold bind at 1.
  unfold append_history, bind at 1, read_session at 1. simpl.
  rewrite Hh. simpl. unfold modify_session at 1.
  set (w0 := upd (set_conversation_history (h ++ [HumanMessage response])) w).
  unfold bind at 1.
  rewrite (clarification_check_eq w0 response cq (h ++ [HumanMessage response]))
    by (subst w0; simpl; auto).
  simpl.
  destruct (asks_clarification o (q_question cq) response) as [text|]; [reflexivity|].
  unfold bind at 1. cbv beta iota. unfold bind at 1.
  erewrite analyze_response_eq by (subst w0; simpl; eauto).
  unfold bind at 1.
  erewrite completion_check_eq by (subst w0; simpl; eauto).
  destruct (bool_decide (List.length qs <= List.length asked)); [reflexivity|].
  unfold bind at 1.
  erewrite select_next_step_eq by (subst w0; simpl; eauto).
  simpl.
  destruct (available_questions qs asked) as [|q0 [|q1 rest]]; reflexivity.
Qed.

Lemma bind_Ok_inv {A B} (c : M A) (k : A -> M B) w w' b :
  bind c k w = (w', Ok b) ->
  exists w1 a, c w = (w1, Ok a) /\ k a w1 = (w', Ok b).
Proof.
  unfold bind. destruct (c w) as [w1 [a|e]]; intros H; [eauto | discriminate].
Qed.

Lemma bind_cong {A B} (c1 c2 : M A) (k1 k2 : A -> M B) w :
  c1 w = c2 w -> (forall a w', k1 a w' = k2 a w') -> bind c1 k1 w = bind c2 k2 w.
Proof.
  intros Hc Hk. unfold bind. rewrite Hc. destruct (c2 w) as [w' [a|e]]; auto.
Qed.

Lemma read_session_Ok w w' s : read_session w = (w', Ok s) -> s = w_session w'.
Proof. unfold read_session. intros H. injection H as <- <-. reflexivity. Qed.

(** C9.  For every session dict, every response text and every behaviour
    of the chains, [process_response] returns: no exception leaves it, and
    the value returned is the session dict in its final state.  A failing
    clarification chain is replaced by its fallback: the turn proceeds
    exactly as if the chain had answered that no clarification is needed;
    so is a failing analysis chain: the turn proceeds exactly as if the
    chain had answered with the neutral scores. *)
Theorem process_response_never_raises (response : string) (w : World) :
  (exists w', process_response o response w = (w', Ok (w_session w'))) /\
  (forall why,
     process_response (failing_clarification o) response w =
     process_response (declining_clarification why o) response w) /\
  process_response (failing_analysis o) response w =
  process_response (neutral_analysis o) response w.
Proof.
  split; [|split].
  - unfold process_response, try_except.
    destruct (bind read_session _ w) as [w' [s'|e]] eqn:E.
    + exists w'. f_equal. f_equal.
      apply bind_Ok_inv in E as (w1 & s & _ & E).
      destruct (session_is_empty s); [discriminate|].
      destruct (current_question s); [|discriminate].
      apply bind_Ok_inv in E as (w2 & [] & _ & E).
      apply bind_Ok_inv in E as (w3 & stop & _ & E).
      destruct stop; [exact (read_session_Ok _ _ _ E)|].
      apply bind_Ok_inv in E as (w4 & [] & _ & E).
      apply bind_Ok_inv in E as (w5 & [] & _ & E).
      apply bind_Ok_inv in E as (w6 & done & _ & E).
      destruct done; [exact (read_session_Ok _ _ _ E)|].
      apply bind_Ok_inv in E as (w7 & [] & _ & E).
      exact (read_session_Ok _ _ _ E).
    + exists w'. reflexivity.
  - intros why.
    assert (forall w0, clarification_check (failing_clarification o) response w0 =
                       clarification_check (declining_clarification why o) response w0) as Hc.
    { intros w0. unfold clarification_check, try_except, bind, read_session.
      destruct (current_question (w_session w0)); reflexivity. }
    unfold process_response, try_except.
    match goal with
    | |- (let (_, _) := ?b1 w in _) = (let (_, _) := ?b2 w in _) =>
        assert (b1 w = b2 w) as ->; [|reflexivity]
    end.
    apply bind_cong; [reflexivity|]. intros s w1.
    destruct (session_is_empty s); [reflexivity|].
    destruct (current_question s); [|reflexivity].
    apply bind_cong; [reflexivity|]. intros [] w2.
    apply bind_cong; [apply Hc|]. intros stop w3.
    reflexivity.
  - assert (forall w0, analyze_response (failing_analysis o) response w0 =
                       analyze_response (neutral_analysis o) response w0) as Ha.
    { intros w0.
      unfold analyze_response, try_except, store_analysis, invoke, bind,
        read_session, log_call. simpl.
      destruct (current_question (w_session w0)) as [cq|] eqn:Hcq; simpl; [|reflexivity].
      destruct (evaluation (w_session w0)) eqn:Hev; simpl;
        rewrite ?Hcq; simpl; rewrite ?Hev; reflexivity. }
    unfold process_response, try_except.
    match goal with
    | |- (let (_, _) := ?b1 w in _) = (let (_, _) := ?b2 w in _) =>
        assert (b1 w = b2 w) as ->; [|reflexivity]
    end.
    apply bind_cong; [reflexivity|]. intros s w1.
    destruct (session_is_empty s); [reflexivity|].
    destruct (current_question s); [|reflexivity].
    apply bind_cong; [reflexivity|]. intros [] w2.
    apply bind_cong; [reflexivity|]. intros stop w3.
    destruct stop; [reflexivity|].
    apply bind_cong; [reflexivity|]. intros [] w4.
    apply bind_cong; [apply Ha|]. intros [] w5.
    reflexivity.
Qed.

Lemma find_id_None (l : list Question) (i : string) :
  i ∉ map q_id l -> List.find (fun q => bool_decide (q_id q = i)) l = None.
Proof.
  induction l as [|q l IH]; simpl; intros Hni; [reflexivity|].
  rewrite not_elem_of_cons in Hni. destruct Hni as [Hne Hni].
  rewrite bool_decide_eq_false_2 by congruence. auto.
Qed.

Lemma filter_head_split {A} (P : A -> Prop) `{forall x, Decision (P x)}
    (l : list A) x r :
  filter P l = x :: r ->
  exists pre post, l = pre ++ x :: post /\ Forall (fun y => ~ P y) pre /\ P x.
Proof.
  induction l as [|a l IH]; intros Hf; [discriminate|].
  rewrite filter_cons in Hf. destruct (decide (P a)) as [Ha|Ha].
  - injection Hf as -> _. exists [], l. auto.
  - destruct (IH Hf) as (pre & post & -> & Hpre & Hx).
    exists (a :: pre), post. auto.
Qed.

(** C3 (as the code has it).  After a turn is analysed and the session is
    not complete: when exactly one question is not yet asked it is selected
    without any chain call (the call log is unchanged) and becomes the
    current question; when several remain and the next-question chain
    raises, the first available question is selected and the session goes
    on with it (it is not marked complete); the session is marked complete,
    with the closing message appended, when no question is available. *)
Theorem next_question_selection (w : World) sc qs asked h :
  scenario (w_session w) = Some sc ->
  sc_questions sc = Some qs ->
  questions_asked (w_session w) = Some asked ->
  conversation_history (w_session w) = Some h ->
  let advance q w' :=
    upd (set_conversation_history (h ++ [AIMessage (q_question q)]))
      (upd (set_questions_asked (asked ++ [q_id q]))
         (upd (set_current_question q) w')) in
  (forall q, available_questions qs asked = [q] ->
     select_next_question o w = (w, Ok (Some q)) /\
     select_next_step o w = (advance q w, Ok tt)) /\
  (forall first second rest,
     available_questions qs asked = first :: second :: rest ->
     let title := default "Unknown Scenario" (sc_title sc) in
     let descr := default "No description available" (sc_description sc) in
     let avail := available_questions_text (first :: second :: rest) in
     let hist := conversation_history_text h in
     next_question_chain o title descr avail hist = None ->
     select_next_question o w =
       (logged (CallNextQuestion title descr avail hist) w, Ok (Some first)) /\
     select_next_step o w =
       (advance first (logged (CallNextQuestion title descr avail hist) w), Ok tt)) /\
  (available_questions qs asked = [] ->
     select_next_question o w = (w, Ok None) /\
     select_next_step o w =
       (upd (set_conversation_history (h ++ [closing_message]))
          (upd (set_interview_complete true) w), Ok tt)).
Proof.
  intros Hsc Hqs Hasked Hh advance.
  pose proof (select_next_question_eq w sc qs asked Hsc Hqs Hasked) as Eq.
  pose proof (select_next_step_eq w sc qs asked h Hsc Hqs Hasked Hh) as Es.
  cbv zeta in Es. split; [|split].
  - intros q Hav. split; [rewrite Eq, Hav | rewrite Es, Hav]; reflexivity.
  - intros first second rest Hav title descr avail hist Hnone.
    subst title descr avail hist. split.
    + rewrite Eq, Hav, Hh. cbv beta iota zeta. rewrite Hnone. reflexivity.
    + rewrite Es, Hav. cbv beta iota zeta. rewrite Hnone. reflexivity.
  - intros Hav. split; [rewrite Eq, Hav | rewrite Es, Hav]; reflexivity.
Qed.

(** C4 (as the code has it).  With more than one question not yet asked,
    when the chain's answer is made of ASCII characters and the identifier
    extracted from it (white space trimmed, every occurrence of ["ID: "]
    removed, text from the first comma on dropped) is the id of no
    available question, [select_next_question] returns the first available
    question in the order of the scenario: every question before it was
    already asked. *)
Theorem unmatched_id_selects_first (w : World) sc qs asked h first second rest answer :
  scenario (w_session w) = Some sc ->
  sc_questions sc = Some qs ->
  questions_asked (w_session w) = Some asked ->
  conversation_history (w_session w) = Some h ->
  available_questions qs asked = first :: second :: rest ->
  let title := default "Unknown Scenario" (sc_title sc) in
  let descr := default "No description available" (sc_description sc) in
  let avail := available_questions_text (first :: second :: rest) in
  let hist := conversation_history_text h in
  next_question_chain o title descr avail hist = Some answer ->
  PyStr.is_ascii answer = true ->
  clean_id answer ∉ map q_id (first :: second :: rest) ->
  select_next_question o w =
    (logged (CallNextQuestion title descr avail hist) w, Ok (Some first)) /\
  exists before after,
    qs = before ++ first :: after /\
    Forall (fun q => q_id q ∈ asked) before /\ q_id first ∉ asked.
Proof.
  intros Hsc Hqs Hasked Hh Hav title descr avail hist Hans Hascii Hni.
  subst title descr avail hist. split.
  - rewrite (select_next_question_eq w sc qs asked Hsc Hqs Hasked), Hav, Hh.
    cbv beta iota zeta. rewrite Hans.
    unfold match_question. rewrite (find_id_None _ _ Hni). reflexivity.
  - unfold available_questions in Hav.
    apply filter_head_split in Hav as (pre & post & -> & Hpre & Hx).
    exists pre, post. repeat split; [|assumption].
    eapply Forall_impl; [exact Hpre|]. intros q Hq. simpl in Hq.
    destruct (decide (q_id q ∈ asked)); [assumption|contradiction].
Qed.

Lemma match_question_in (available : list Question) first i :
  first ∈ available -> match_question available first i ∈ available.
Proof.
  intros Hf. unfold match_question.
  destruct (List.find _ available) as [q|] eqn:E; simpl; [|assumption].
  apply find_some in E as [Hin _]. by apply list_elem_of_In.
Qed.

(** The two outcomes of a turn that is not interrupted by a clarification:
    the session is finished, or it advances to an available question. *)
Lemma turn_cases (w : World) response sc qs asked h ev cq :
  well_formed (w_session w) sc qs asked h ev cq ->
  asks_clarification o (q_question cq) response = None ->
  let s := w_session w in
  let s' := w_session (fst (process_response o response w)) in
  let h1 := h ++ [HumanMessage response] in
  let ev' := <[q_id cq := {| ev_question := q_question cq; ev_response := response;
                             ev_analysis := recorded_analysis o (q_question cq) response |}]> ev in
  (well_formed s' sc qs asked (h1 ++ [closing_message]) ev' cq /\
   interview_complete s' = Some true /\
   (List.length qs <= List.length asked \/ available_questions qs asked = [])) \/
  (exists q,
     well_formed s' sc qs (asked ++ [q_id q]) (h1 ++ [AIMessage (q_question q)]) ev' q /\
     interview_complete s' = interview_complete s /\
     q ∈ available_questions qs asked /\
     List.length asked < List.length qs).
Proof.
  intros Hwf Hclar. pose proof Hwf as (Hsc & Hqs & Hasked & Hh & Hev & Hcq).
  cbv zeta. rewrite (process_response_eq w response sc qs asked h ev cq Hwf).
  cbv zeta. rewrite Hclar.
  destruct (bool_decide (List.length qs <= List.length asked)) eqn:Hlen.
  { left. apply bool_decide_eq_true_1 in Hlen. simpl.
    unfold well_formed; simpl; auto 10. }
  apply bool_decide_eq_false_1 in Hlen.
  destruct (available_questions qs asked) as [|q0 [|q1 rest]] eqn:Hav.
  - left. simpl. unfold well_formed; simpl; auto 10.
  - right. exists q0. simpl. unfold well_formed; simpl.
    repeat split; auto; [set_solver | lia].
  - right. eexists. simpl. unfold well_formed; simpl.
    repeat split; auto; [|lia].
    destruct (next_question_chain o _ _ _ _); [|set_solver].
    apply match_question_in. set_solver.
Qed.

End Engine.


Section Sessions.

Lemma start_interview_inv scenarios rnd sid s0 sc qs :
  start_interview scenarios rnd sid = Ok s0 ->
  scenario s0 = Some sc -> sc_questions sc = Some qs ->
  engine_inv qs s0 /\ all_default s0 /\ remaining qs s0 = List.length qs /\ qs <> [].
Proof.
  unfold start_interview. intros Hstart Hsc Hqs.
  destruct (match sid with Some _ => _ | None => _ end) as [sc'|]; [|discriminate].
  destruct (sc_questions sc') as [[|q0 qs']|] eqn:E; try discriminate.
  injection Hstart as <-. simpl in *. injection Hsc as ->.
  rewrite Hqs in E. injection E as ->.
  repeat split.
  - exists sc, [q_id q0], [SystemMessage SYSTEM_PROMPT;
      AIMessage ("Let's begin the interview. " +:+ q_question q0)], ∅, q0.
    unfold well_formed; simpl. repeat split; auto.
    + apply NoDup_singleton.
    + intros i Hi. apply list_elem_of_singleton in Hi as ->. apply list_elem_of_here.
    + apply list_elem_of_here.
    + intros i Hi. left. by apply list_elem_of_singleton.
    + discriminate.
  - intros ev i e Hev. simpl in Hev. injection Hev as <-.
    rewrite lookup_empty. discriminate.
  - unfold remaining. simpl. lia.
  - discriminate.
Qed.

Lemma available_in (qs : list Question) asked q :
  q ∈ available_questions qs asked -> q ∈ qs /\ q_id q ∉ asked.
Proof. unfold available_questions. rewrite list_elem_of_filter. tauto. Qed.

Lemma asked_covers (qs : list Question) (asked : list string) :
  NoDup asked -> (forall i, i ∈ asked -> i ∈ map q_id qs) ->
  List.length qs <= List.length asked \/ available_questions qs asked = [] ->
  forall q, q ∈ qs -> q_id q ∈ asked.
Proof.
  intros Hnd Hsub [Hlen|Hav] q Hq.
  - apply list_elem_of_In.
    apply (NoDup_length_incl (l := asked) (l' := map q_id qs)).
    + by apply NoDup_ListNoDup.
    + rewrite length_map. exact Hlen.
    + intros i Hi. apply list_elem_of_In, Hsub, list_elem_of_In, Hi.
    + apply in_map, list_elem_of_In, Hq.
  - destruct (decide (q_id q ∈ asked)) as [|Hn]; [assumption|].
    assert (q ∈ available_questions qs asked) as Hin.
    { unfold available_questions. apply list_elem_of_filter. auto. }
    rewrite Hav in Hin. set_solver.
Qed.

(** A turn interrupted by a clarification changes the history and the
    clarification flag only. *)
Lemma clarified_turn (o : Oracle) (w : World) response sc qs asked h ev cq text :
  well_formed (w_session w) sc qs asked h ev cq ->
  asks_clarification o (q_question cq) response = Some text ->
  let s' := w_session (fst (process_response o response w)) in
  well_formed s' sc qs asked (h ++ [HumanMessage response; AIMessage text]) ev cq /\
  awaiting_clarification s' = Some true /\
  interview_complete s' = interview_complete (w_session w).
Proof.
  intros Hwf Hclar. pose proof Hwf as (Hsc & Hqs & Hasked & Hh & Hev & Hcq).
  cbv zeta. rewrite (process_response_eq o w response sc qs asked h ev cq Hwf).
  cbv zeta. rewrite Hclar. simpl. rewrite <- app_assoc.
  unfold well_formed; simpl; auto 10.
Qed.

(** A turn keeps the invariant and never moves completion away; a turn that
    is not interrupted by a clarification brings it one turn closer. *)
Lemma turn_inv (o : Oracle) (response : string) (w : World) qs :
  engine_inv qs (w_session w) ->
  let s' := w_session (fst (process_response o response w)) in
  engine_inv qs s' /\
  remaining qs s' <= remaining qs (w_session w) /\
  (never_clarifies o -> remaining qs s' <= pred (remaining qs (w_session w))).
Proof.
  intros (sc & asked & h & ev & cq & Hwf & Hnd & Hsub & Hcur & Hev & Hdone).
  destruct (asks_clarification o (q_question cq) response) as [text|] eqn:Hclar.
  { destruct (clarified_turn o w response sc qs asked h ev cq text Hwf Hclar)
      as (Hwf' & _ & Hc').
    assert (remaining qs (w_session (fst (process_response o response w))) =
            remaining qs (w_session w)) as Hsame.
    { destruct Hwf as (_ & _ & Hasked & _). destruct Hwf' as (_ & _ & Hasked' & _).
      unfold remaining. rewrite Hc', Hasked, Hasked'. reflexivity. }
    split; [|split].
    - eexists sc, asked, _, ev, cq. split; [exact Hwf'|].
      rewrite Hc'. auto.
    - rewrite Hsame. lia.
    - intros Hquiet. rewrite (Hquiet _ _) in Hclar. discriminate. }
  assert (forall a b : nat, a <= pred b -> a <= b /\ (never_clarifies o -> a <= pred b))
    as Hweaken by (intros; split; [lia|auto]).
  destruct (turn_cases o w response sc qs asked h ev cq Hwf Hclar)
    as [(Hwf' & Hc' & Hfull)|(q & Hwf' & Hc' & Hq & Hlt)].
  - split; [|apply Hweaken].
    + eexists sc, asked, _, _, cq. split; [exact Hwf'|].
      repeat split; auto.
      * intros i Hi. destruct (Hev i Hi) as [->|[e He]]; [by left|right].
        destruct (decide (q_id cq = i)) as [->|Hne];
          [rewrite lookup_insert_eq | rewrite lookup_insert_ne by done]; eauto.
      * intros _ q Hq.
        pose proof (asked_covers qs asked Hnd Hsub Hfull q Hq) as Hin.
        destruct (decide (q_id cq = q_id q)) as [<-|Hne];
          [rewrite lookup_insert_eq; eauto | rewrite lookup_insert_ne by done].
        destruct (Hev _ Hin) as [?|?]; congruence.
    + unfold remaining at 1. rewrite Hc'. lia.
  - apply available_in in Hq as [Hq Hfresh]. split; [|apply Hweaken].
    + eexists sc, (asked ++ [q_id q]), _, _, q. split; [exact Hwf'|].
      repeat split.
      * apply NoDup_app. repeat split; [assumption | | apply NoDup_singleton].
        intros x Hx Hx'. apply list_elem_of_singleton in Hx' as ->. contradiction.
      * intros i Hi. apply elem_of_app in Hi as [Hi|Hi]; [auto|].
        apply list_elem_of_singleton in Hi as ->.
        apply list_elem_of_In, in_map, list_elem_of_In, Hq.
      * apply elem_of_app. right. apply list_elem_of_here.
      * intros i Hi. apply elem_of_app in Hi as [Hi|Hi];
          [|left; by apply list_elem_of_singleton].
        right. destruct (decide (q_id cq = i)) as [->|Hne];
          [rewrite lookup_insert_eq; eauto | rewrite lookup_insert_ne by done].
        destruct (Hev i Hi) as [?|?]; congruence.
      * rewrite Hc'. intros Hd q' Hq'.
        destruct (decide (q_id cq = q_id q')) as [<-|Hne];
          [rewrite lookup_insert_eq; eauto | rewrite lookup_insert_ne by done].
        by apply Hdone.
    + destruct Hwf as (_ & _ & Hasked & _). destruct Hwf' as (_ & _ & Hasked' & _).
      unfold remaining. rewrite Hc', Hasked, Hasked'. simpl.
      rewrite length_app. simpl.
      destruct (interview_complete (w_session w)) as [[]|]; lia.
Qed.

Lemma turn_all_default (o : Oracle) (response : string) (w : World) qs :
  analysis_fails o ->
  engine_inv qs (w_session w) -> all_default (w_session w) ->
  all_default (w_session (fst (process_response o response w))).
Proof.
  intros Hfail (sc & asked & h & ev & cq & Hwf & _) Hdef.
  destruct (asks_clarification o (q_question cq) response) as [text|] eqn:Hclar.
  { destruct (clarified_turn o w response sc qs asked h ev cq text Hwf Hclar)
      as (Hwf' & _).
    destruct Hwf as (_ & _ & _ & _ & Hev & _).
    destruct Hwf' as (_ & _ & _ & _ & Hev' & _).
    intros ev0 i e Hev0 Hi. rewrite Hev' in Hev0. injection Hev0 as <-.
    eapply Hdef; eauto. }
  assert (forall s', evaluation s' =
            Some (<[q_id cq := {| ev_question := q_question cq; ev_response := response;
                      ev_analysis := recorded_analysis o (q_question cq) response |}]> ev) ->
          all_default s') as Hgoal.
  { intros s' Hev' ev0 i e Hev0 Hi. rewrite Hev' in Hev0. injection Hev0 as <-.
    destruct (decide (q_id cq = i)) as [<-|Hne].
    - rewrite lookup_insert_eq in Hi. injection Hi as <-. simpl.
      unfold recorded_analysis. by rewrite Hfail.
    - rewrite lookup_insert_ne in Hi by done.
      destruct Hwf as (_ & _ & _ & _ & Hev & _). eapply Hdef; eauto. }
  destruct (turn_cases o w response sc qs asked h ev cq Hwf Hclar)
    as [(Hwf' & _)|(q & Hwf' & _)];
    apply Hgoal; destruct Hwf' as (_ & _ & _ & _ & Hev' & _); exact Hev'.
Qed.

Lemma run_turns_inv (turns : list (string * Oracle)) (w : World) qs n :
  Forall (fun t => analysis_fails (snd t)) turns ->
  quiet_turns n turns ->
  engine_inv qs (w_session w) -> all_default (w_session w) ->
  let s' := w_session (run_turns turns w) in
  engine_inv qs s' /\ all_default s' /\
  remaining qs s' <= remaining qs (w_session w) - n.
Proof.
  revert w n. induction turns as [|[response o] turns IH];
    intros w n Hall Hquiet Hinv Hdef; simpl.
  - inversion Hquiet; subst. repeat split; auto. lia.
  - apply Forall_cons in Hall as [Ho Hall]. simpl in Ho.
    destruct (turn_inv o response w qs Hinv) as (Hinv' & Hle & Hstep).
    pose proof (turn_all_default o response w qs Ho Hinv Hdef) as Hdef'.
    inversion Hquiet as [ts|m r o' ts Hnever Hrest|m t ts Hrest]; subst.
    + destruct (IH _ 0 Hall (quiet_none _) Hinv' Hdef') as (Hi & Hd & Hr).
      repeat split; auto. lia.
    + destruct (IH _ m Hall Hrest Hinv' Hdef') as (Hi & Hd & Hr).
      specialize (Hstep Hnever). repeat split; auto. lia.
    + destruct (IH _ n Hall Hrest Hinv' Hdef') as (Hi & Hd & Hr).
      repeat split; auto. lia.
Qed.

End Sessions.

Lemma failed_analysis_entry o w response sc qs asked h ev cq :
  well_formed (w_session w) sc qs asked h ev cq ->
  asks_clarification o (q_question cq) response = None ->
  analysis_chain o (q_question cq) response = None ->
  exists ev',
    evaluation (w_session (fst (process_response o response w))) = Some ev' /\
    ev' !! q_id cq =
      Some {| ev_question := q_question cq; ev_response := response;
              ev_analysis := default_analysis |}.
Proof.
  intros Hwf Hclar Hfail.
  destruct (turn_cases o w response sc qs asked h ev cq Hwf Hclar)
    as [(Hwf' & _)|(q & Hwf' & _)];
    destruct Hwf' as (_ & _ & _ & _ & Hev' & _);
    eexists; (split; [exact Hev'|]);
    rewrite lookup_insert_eq; unfold recorded_analysis; rewrite Hfail; reflexivity.
Qed.

(** C1 (as the code has it).  When the analysis chain raises in a turn that
    is not interrupted by a clarification, [process_response] still records
    an entry for the current question id, with the question, the response
    and the default analysis: 5 on the five axes relevance, completeness,
    clarity, technical accuracy and professional tone, the reasoning
    ["Analysis failed due to an error."], and no grammar or vocabulary score.
    A session started by [start_interview] whose analysis chain raises at
    every call is complete once as many turns as the scenario has questions
    were not interrupted by a clarification, and then every question id of
    the scenario has an entry, all with the default analysis. *)
Theorem failed_analysis_is_recorded :
  (forall o w response sc qs asked h ev cq,
     well_formed (w_session w) sc qs asked h ev cq ->
     asks_clarification o (q_question cq) response = None ->
     analysis_chain o (q_question cq) response = None ->
     exists ev',
       evaluation (w_session (fst (process_response o response w))) = Some ev' /\
       ev' !! q_id cq =
         Some {| ev_question := q_question cq; ev_response := response;
                 ev_analysis := default_analysis |}) /\
  (Forall (fun axis => default_analysis !! axis = Some (VInt 5))
     ["relevance_score"; "completeness_score"; "clarity_score";
      "technical_accuracy_score"; "professional_tone_score"] /\
   default_analysis !! "reasoning" = Some (VStr "Analysis failed due to an error.") /\
   default_analysis !! "grammar_score" = None /\
   default_analysis !! "vocabulary_score" = None) /\
  (forall scenarios rnd sid s0 sc qs turns,
     start_interview scenarios rnd sid = Ok s0 ->
     scenario s0 = Some sc -> sc_questions sc = Some qs ->
     Forall (fun t => analysis_fails (snd t)) turns ->
     quiet_turns (List.length qs) turns ->
     let s := w_session (run_turns turns (new_world s0)) in
     interview_complete s = Some true /\
     forall q, q ∈ qs ->
       exists ev e, evaluation s = Some ev /\ ev !! q_id q = Some e /\
                    ev_analysis e = default_analysis).
Proof.
  split; [|split].
  - exact failed_analysis_entry.
  - repeat split; repeat constructor.
  - intros scenarios rnd sid s0 sc qs turns Hstart Hsc Hqs Hall Hquiet s.
    destruct (start_interview_inv _ _ _ _ _ _ Hstart Hsc Hqs) as (Hinv & Hdef & Hrem & _).
    destruct (run_turns_inv turns (new_world s0) qs _ Hall Hquiet Hinv Hdef)
      as (Hinv' & Hdef' & Hrem').
    fold s in Hinv', Hdef', Hrem'. simpl in Hrem'. rewrite Hrem in Hrem'.
    assert (interview_complete s = Some true) as Hdone.
    { unfold remaining in Hrem'. destruct (interview_complete s) as [[]|]; [reflexivity|lia..]. }
    split; [exact Hdone|]. intros q Hq.
    destruct Hinv' as (sc' & asked & h & ev & cq & Hwf & _ & _ & _ & _ & Hfull).
    destruct (Hfull Hdone q Hq) as [e He].
    destruct Hwf as (_ & _ & _ & _ & Hev & _).
    exists ev, e. repeat split; auto. eapply Hdef'; eauto.
Qed.

Lemma failed_analysis_is_recorded_witness :
  (exists ev',
     evaluation (w_session (fst (process_response Ex.all_fail "answer A"
                                   (new_world (Ex.started Ex.three))))) = Some ev' /\
     ev' !! "q1" = Some {| ev_question := "Design the services."; ev_response := "answer A";
                           ev_analysis := default_analysis |}) /\
  interview_complete
    (w_session (run_turns [("a", Ex.all_fail); ("b", Ex.all_fail); ("c", Ex.all_fail)]
                  (new_world (Ex.started Ex.three)))) = Some true.
Proof.
  destruct failed_analysis_is_recorded as (Ha & _ & Hb). split.
  - apply (Ha Ex.all_fail (new_world (Ex.started Ex.three)) "answer A" Ex.three
             [Ex.q1; Ex.q2; Ex.q3] ["q1"] Ex.opening ∅ Ex.q1).
    + repeat split; reflexivity.
    + reflexivity.
    + reflexivity.
  - apply (Hb [Ex.three] 0 (Some "backend") (Ex.started Ex.three) Ex.three
             [Ex.q1; Ex.q2; Ex.q3]).
    + reflexivity.
    + reflexivity.
    + reflexivity.
    + repeat constructor.
    + repeat constructor.
Defined.

(** C1 as the specification words it fails: the entry recorded after a
    failed analysis has no grammar score (nor a vocabulary score). *)
Lemma failed_analysis_has_no_grammar_score :
  let s' := w_session (fst (process_response Ex.all_fail "answer A"
                              (new_world (Ex.started Ex.three)))) in
  analysis_chain Ex.all_fail "Design the services." "answer A" = None /\
  ~ (exists ev e, evaluation s' = Some ev /\ ev !! "q1" = Some e /\
                  spec_fallback_analysis (ev_analysis e)).
Proof.
  split; [reflexivity|]. intros (ev & e & Hev & He & Hspec & _).
  destruct (failed_analysis_entry
              Ex.all_fail (new_world (Ex.started Ex.three)) "answer A" Ex.three
              [Ex.q1; Ex.q2; Ex.q3] ["q1"] Ex.opening ∅ Ex.q1
              ltac:(repeat split; reflexivity) eq_refl eq_refl) as (ev' & Hev' & He').
  rewrite Hev in Hev'. injection Hev' as <-. simpl in He'.
  rewrite He in He'. injection He' as ->. simpl in Hspec.
  do 5 (apply Forall_cons in Hspec as [_ Hspec]).
  apply Forall_cons in Hspec as [Hg _]. discriminate Hg.
Qed.

Lemma next_question_selection_witness :
  snd (select_next_question Ex.selection_fails (new_world (Ex.started Ex.three))) =
    Ok (Some Ex.q2) /\
  select_next_question Ex.all_fail
    (new_world (set_questions_asked ["q1"; "q2"] (Ex.started Ex.three))) =
    (new_world (set_questions_asked ["q1"; "q2"] (Ex.started Ex.three)), Ok (Some Ex.q3)).
Proof.
  split.
  - destruct (next_question_selection Ex.selection_fails (new_world (Ex.started Ex.three))
                Ex.three [Ex.q1; Ex.q2; Ex.q3] ["q1"] Ex.opening
                eq_refl eq_refl eq_refl eq_refl) as (_ & Hfail & _).
    destruct (Hfail Ex.q2 Ex.q3 [] eq_refl eq_refl) as [-> _]. reflexivity.
  - destruct (next_question_selection Ex.all_fail
                (new_world (set_questions_asked ["q1"; "q2"] (Ex.started Ex.three)))
                Ex.three [Ex.q1; Ex.q2; Ex.q3] ["q1"; "q2"] Ex.opening
                eq_refl eq_refl eq_refl eq_refl) as (Hone & _ & _).
    exact (proj1 (Hone Ex.q3 eq_refl)).
Defined.

(** C3 as the specification words it fails: the next-question chain raises,
    and the session is not complete; the turn ends on the first available
    question, with no closing message. *)
Lemma failed_selection_does_not_complete :
  let w' := fst (process_response Ex.selection_fails "answer A"
                   (new_world (Ex.started Ex.three))) in
  (forall title descr avail hist,
     next_question_chain Ex.selection_fails title descr avail hist = None) /\
  interview_complete (w_session w') <> Some true /\
  current_question (w_session w') = Some Ex.q2 /\
  conversation_history (w_session w') =
    Some (Ex.opening ++ [HumanMessage "answer A"; AIMessage "Design the API."]).
Proof.
  split; [reflexivity|]. split; [|split].
  - vm_compute. discriminate.
  - vm_compute. reflexivity.
  - vm_compute. reflexivity.
Qed.

Lemma unmatched_id_selects_first_witness :
  snd (select_next_question (Ex.picks "ID: q7, a follow-up")
         (new_world (Ex.started Ex.three))) = Ok (Some Ex.q2).
Proof.
  destruct (unmatched_id_selects_first (Ex.picks "ID: q7, a follow-up")
              (new_world (Ex.started Ex.three))
              Ex.three [Ex.q1; Ex.q2; Ex.q3] ["q1"] Ex.opening Ex.q2 Ex.q3 []
              "ID: q7, a follow-up" eq_refl eq_refl eq_refl eq_refl eq_refl eq_refl eq_refl)
    as [-> _]; [|reflexivity].
  apply (bool_decide_unpack _). vm_compute. exact I.
Defined.

(** C4 as the specification words it fails: stripping only a leading
    ["ID: "] leaves an identifier that no available question has, yet the
    code, which removes ["ID: "] wherever it occurs, finds the third question
    and returns it, not the first available one. *)
Lemma inner_prefix_is_removed_too :
  let w := new_world (Ex.started Ex.three) in
  available_questions [Ex.q1; Ex.q2; Ex.q3] ["q1"] = [Ex.q2; Ex.q3] /\
  (spec_clean_id "qID: 3" ∉ map q_id [Ex.q2; Ex.q3]) /\
  snd (select_next_question (Ex.picks "qID: 3") w) = Ok (Some Ex.q3) /\
  Ex.q3 <> Ex.q2.
Proof.
  split; [reflexivity|]. split; [|split].
  - apply (bool_decide_unpack _). vm_compute. exact I.
  - vm_compute. reflexivity.
  - discriminate.
Qed.

(* ===================================================================== *)
(** ** The orchestrator and the store *)
(* ===================================================================== *)

Lemma sessions_store_detailed sid detailed db :
  sessions (store_detailed sid detailed db) = sessions db /\
  responses (store_detailed sid detailed db) = responses db /\
  reports (store_detailed sid detailed db) = reports db /\
  journal (store_detailed sid detailed db) =
    journal db ++ map (fun _ => WEvaluation sid "detailed") detailed.
Proof.
  unfold store_detailed. revert db.
  induction detailed as [|item detailed IH]; intros db; simpl.
  - rewrite app_nil_r. auto.
  - destruct (IH (store_evaluation sid "detailed" (DetailedData item.1 item.2) db))
      as (-> & -> & -> & ->). simpl. rewrite <- app_assoc. auto.
Qed.

Lemma session_status_update sid status db :
  session_status sid (update_session_status sid status db) =
    (fun _ => status) <$> session_status sid db.
Proof.
  unfold session_status, get_session, update_session_status. simpl.
  induction (sessions db) as [|r rows IH]; simpl; [reflexivity|].
  destruct (bool_decide (row_session_id r = sid)) eqn:E; simpl.
  - rewrite E. reflexivity.
  - rewrite E. exact IH.
Qed.

(** C2 (as the code has it).  When the clarification chain answers that a
    clarification is needed and gives the follow-up question, the engine's
    [process_response] leaves the current question and the asked ids
    unchanged, sets [awaiting_clarification], appends to the history the
    candidate's message and then exactly one agent message, the follow-up
    question, and records no analysis; the orchestrator returns that state
    and stores one Turn record for the submission, under the current
    question id, and no evaluation row. *)
Theorem clarification_round_trip :
  (forall o w response sc qs asked h ev cq r text,
     well_formed (w_session w) sc qs asked h ev cq ->
     clarification_chain o (q_question cq) response = Some r ->
     needs_clarification r = true ->
     clarification_question r = Some text ->
     let s' := w_session (fst (process_response o response w)) in
     current_question s' = Some cq /\
     questions_asked s' = Some asked /\
     awaiting_clarification s' = Some true /\
     conversation_history s' = Some (h ++ [HumanMessage response; AIMessage text]) /\
     evaluation s' = Some ev /\
     interview_complete s' = interview_complete (w_session w)) /\
  (forall env sid response db row sc qs title descr cq r text,
     get_session sid db = Some row ->
     get_scenario_by_id (env_scenarios env) (row_scenario_id row) = Some sc ->
     sc_questions sc = Some qs ->
     sc_title sc = Some title -> sc_description sc = Some descr ->
     let rs := get_session_responses sid db in
     handler_current_question qs (map resp_question_id rs) = Ok (Some cq) ->
     List.length rs < List.length qs ->
     clarification_chain (env_engine env) (q_question cq) response = Some r ->
     needs_clarification r = true ->
     clarification_question r = Some text ->
     handle_response env sid response db =
       (store_response sid (q_id cq) response db,
        HInfo {| si_session_id := sid; si_scenario_id := sc_id sc;
                 si_scenario_title := title; si_scenario_description := descr;
                 si_current_question := cq;
                 si_awaiting_clarification := Some true;
                 si_conversation_history :=
                   map role_tagged
                     (rebuilt_history qs rs ++
                      [AIMessage (q_question cq); HumanMessage response; AIMessage text]) |}) /\
     get_session_responses sid (store_response sid (q_id cq) response db) =
       rs ++ [{| resp_session_id := sid; resp_question_id := q_id cq;
                 resp_response_text := response |}] /\
     evaluations (store_response sid (q_id cq) response db) = evaluations db).
Proof.
  split.
  - intros o w response sc qs asked h ev cq r text Hwf Hr Hneeds Htext.
    pose proof Hwf as (Hsc & Hqs & Hasked & Hh & Hev & Hcq).
    cbv zeta. rewrite (process_response_eq o w response sc qs asked h ev cq Hwf).
    cbv zeta. unfold asks_clarification. rewrite Hr, Hneeds, Htext. simpl.
    rewrite <- app_assoc. auto 10.
  - intros env sid response db row sc qs title descr cq r text
      Hrow Hsc Hqs Htitle Hdescr rs Hcur Hlen Hr Hneeds Htext.
    split; [|split].
    + unfold handle_response. rewrite Hrow, Hsc, Hqs. fold rs. cbv zeta. rewrite Hcur.
      erewrite process_response_eq by (unfold well_formed; simpl; eauto 10).
      cbv zeta. unfold asks_clarification. rewrite Hr, Hneeds, Htext. simpl.
      rewrite Htitle, Hdescr.
      rewrite bool_decide_eq_false_2 by (rewrite length_map; lia).
      rewrite <- !app_assoc. reflexivity.
    + unfold get_session_responses, store_response. simpl.
      rewrite filter_app. f_equal.
      rewrite filter_cons. simpl. destruct (decide (sid = sid)); [reflexivity|congruence].
    + reflexivity.
Qed.

Lemma clarification_round_trip_witness :
  conversation_history
    (w_session (fst (process_response Ex.clarifies "vague answer"
                       (new_world (Ex.started Ex.two))))) =
    Some (Ex.opening ++ [HumanMessage "vague answer"; AIMessage "please elaborate"]) /\
  evaluations (fst (handle_response (Ex.env Ex.clarifies) "s1" "vague answer" Ex.db_started)) = [].
Proof.
  destruct clarification_round_trip as [Hengine Hhandler]. split.
  - apply (Hengine Ex.clarifies (new_world (Ex.started Ex.two)) "vague answer" Ex.two
             [Ex.q1; Ex.q2] ["q1"] Ex.opening ∅ Ex.q1 Ex.please_elaborate "please elaborate").
    + repeat split; reflexivity.
    + reflexivity.
    + reflexivity.
    + reflexivity.
  - destruct (Hhandler (Ex.env Ex.clarifies) "s1" "vague answer" Ex.db_started
                {| row_session_id := "s1"; row_scenario_id := "api"; row_status := "started" |}
                Ex.two [Ex.q1; Ex.q2] "API" "REST" Ex.q1 Ex.please_elaborate "please elaborate"
                eq_refl eq_refl eq_refl eq_refl eq_refl eq_refl
                ltac:(simpl; lia) eq_refl eq_refl eq_refl) as (Hresult & _ & Hevals).
    rewrite Hresult. exact Hevals.
Defined.

(** C2 as the specification words it fails in the orchestrator: the
    submission that is answered by a clarification question is stored as a
    Turn record. *)
Lemma clarified_submission_is_stored :
  let env := Ex.env Ex.clarifies in
  let db' := fst (handle_response env "s1" "vague answer" Ex.db_started) in
  asks_clarification (env_engine env) (q_question Ex.q1) "vague answer" =
    Some "please elaborate" /\
  get_session_responses "s1" Ex.db_started = [] /\
  get_session_responses "s1" db' =
    [{| resp_session_id := "s1"; resp_question_id := "q1";
        resp_response_text := "vague answer" |}] /\
  get_session_responses "s1" db' <> get_session_responses "s1" Ex.db_started.
Proof.
  repeat split; try reflexivity. vm_compute. discriminate.
Qed.

Lemma responses_complete_interview env sid sc rs db :
  responses (fst (complete_interview env sid sc rs db)) = responses db.
Proof.
  unfold complete_interview.
  destruct (env_run_interview env (map snd rs)) as [result|]; [|reflexivity].
  destruct (generate_evaluation_report _ _ _ _) as [report|]; [|reflexivity].
  destruct (sessions_store_detailed sid (rep_detailed_evaluations report)
              (update_session_status sid "completed" db)) as (_ & Hr & _).
  destruct (env_export_ok env); simpl; exact Hr.
Qed.

Lemma current_question_is_unanswered qs asked cq :
  handler_current_question qs asked = Ok (Some cq) -> q_id cq ∉ asked.
Proof.
  unfold handler_current_question. destruct asked as [|a asked].
  - intros _. apply not_elem_of_nil.
  - intros H. injection H as H. apply find_some in H as [_ H].
    by apply bool_decide_eq_true_1 in H.
Qed.

(** The question ids of the stored Turn records of a session stay pairwise
    distinct across calls of the orchestrator: a response is stored under a
    question that has no stored response yet. *)
Lemma stored_turns_stay_distinct env sid response db :
  NoDup (map resp_question_id (get_session_responses sid db)) ->
  NoDup (map resp_question_id
           (get_session_responses sid (fst (handle_response env sid response db)))).
Proof.
  intros Hnd. unfold handle_response.
  destruct (get_session sid db) as [row|]; [|exact Hnd].
  destruct (get_scenario_by_id _ _) as [sc|]; [|exact Hnd].
  destruct (sc_questions sc) as [qs|]; [|exact Hnd].
  cbv zeta.
  destruct (handler_current_question qs _) as [[cq|]|e] eqn:Hcur; [| |exact Hnd].
  2:{ unfold get_session_responses. rewrite responses_complete_interview. exact Hnd. }
  apply current_question_is_unanswered in Hcur.
  assert (NoDup (map resp_question_id
            (get_session_responses sid (store_response sid (q_id cq) response db)))) as Hnd'.
  { unfold get_session_responses, store_response. simpl.
    rewrite filter_app, filter_cons. simpl.
    destruct (decide (sid = sid)); [|congruence].
    rewrite map_app. simpl. apply NoDup_app. repeat split; [exact Hnd| |apply NoDup_singleton].
    intros x Hx Hx'. apply list_elem_of_singleton in Hx' as ->. contradiction. }
  destruct (process_response _ _ _) as [w' [updated|e]]; [|exact Hnd].
  destruct (default false (interview_complete updated)).
  { unfold get_session_responses. rewrite responses_complete_interview. exact Hnd'. }
  destruct (sc_title sc), (sc_description sc), (current_question updated),
    (conversation_history updated); try exact Hnd'.
  destruct (bool_decide _); [|exact Hnd'].
  unfold get_session_responses. rewrite responses_complete_interview. exact Hnd'.
Qed.

(** C6 at the failing input.  The orchestrator rebuilds [questions_asked]
    from the stored responses only, so the question being answered is still
    among the available ones: in a two-question scenario, after the first
    answer the next-question chain may name the first question, and the
    orchestrator asks it a second time (the history holds it twice and it is
    the current question again) although its Turn record is stored. *)
Theorem orchestrator_asks_answered_question_again :
  let env := Ex.env (Ex.picks "q1") in
  let started := start_interview_session env "s1" 0 (Some "api") empty_db in
  let answered := handle_response env "s1" "answer A" (fst started) in
  (exists info, snd started = HInfo info /\ si_current_question info = Ex.q1) /\
  (exists info, snd answered = HInfo info /\
     si_current_question info = Ex.q1 /\
     si_conversation_history info =
       [("system", "You are an HR interviewer conducting a technical assessment interview.");
        ("assistant", "Design the services."); ("user", "answer A");
        ("assistant", "Design the services.")]) /\
  map resp_question_id (get_session_responses "s1" (fst answered)) = ["q1"].
Proof.
  cbv zeta. split; [|split].
  - eexists. split; [vm_compute; reflexivity|]. reflexivity.
  - eexists. split; [vm_compute; reflexivity|]. split; reflexivity.
  - vm_compute. reflexivity.
Qed.

(** C8 (as the code has it).  [update_session_status] overwrites the status
    whatever it was.  [complete_interview] first writes the status
    ["completed"], before the report is generated and stored; when it
    succeeds the evaluation rows and then the report row follow and the
    status stays ["completed"]; when a later step fails, the status
    ["error"] is written last, over ["completed"]. *)
Theorem completion_status_writes (env : Env) (sid : string) (sc : Scenario)
    (rs : list (string * string)) (db : Db) :
  (forall status,
     session_status sid (update_session_status sid status db) =
       (fun _ => status) <$> session_status sid db) /\
  exists later,
    journal (fst (complete_interview env sid sc rs db)) =
      journal db ++ WStatus sid "completed" :: later /\
    match snd (complete_interview env sid sc rs db) with
    | HCompleted _ report =>
        later = map (fun _ => WEvaluation sid "detailed") (rep_detailed_evaluations report) ++
                [WEvaluation sid "overall"; WReport sid] /\
        reports (fst (complete_interview env sid sc rs db)) =
          reports db ++ [{| report_session_id := sid; report_data := report |}] /\
        session_status sid (fst (complete_interview env sid sc rs db)) =
          (fun _ => "completed") <$> session_status sid db
    | _ =>
        last later = Some (WStatus sid "error") /\
        session_status sid (fst (complete_interview env sid sc rs db)) =
          (fun _ => "error") <$> session_status sid db
    end.
Proof.
  split; [intros status; apply session_status_update|].
  unfold complete_interview.
  set (db1 := update_session_status sid "completed" db).
  assert (session_status sid (update_session_status sid "error" db1) =
          (fun _ => "error") <$> session_status sid db) as Herr.
  { subst db1. rewrite !session_status_update.
    destruct (session_status sid db); reflexivity. }
  destruct (env_run_interview env (map snd rs)) as [result|].
  2:{ exists [WStatus sid "error"]. simpl. rewrite <- app_assoc. auto. }
  destruct (generate_evaluation_report _ _ _ _) as [report|].
  2:{ exists [WStatus sid "error"]. simpl. rewrite <- app_assoc. auto. }
  set (db2 := store_detailed sid (rep_detailed_evaluations report) db1).
  destruct (sessions_store_detailed sid (rep_detailed_evaluations report) db1)
    as (Hs & _ & Hr & Hj). fold db2 in Hs, Hr, Hj.
  destruct (env_export_ok env).
  - eexists. simpl. rewrite Hj, Hr. simpl. rewrite <- !app_assoc. simpl.
    split; [reflexivity|]. split; [reflexivity|]. split; [reflexivity|].
    unfold session_status, get_session. simpl. rewrite Hs.
    apply session_status_update.
  - eexists. simpl. rewrite Hj. simpl. rewrite <- !app_assoc. simpl.
    split; [reflexivity|]. split.
    + rewrite !last_app. reflexivity.
    + transitivity (session_status sid (update_session_status sid "error" db1));
        [|exact Herr].
      rewrite !session_status_update.
      unfold session_status, get_session. simpl. rewrite Hs. reflexivity.
Qed.

(** C8 as the specification words it fails.  In a completed two-question
    interview the status ["completed"] is committed before the evaluation
    rows and the report row; and a further submission to the completed
    session, made while the report chains raise, moves the status from
    ["completed"] to ["error"]. *)
Lemma completed_is_written_first_and_not_terminal :
  let env := Ex.env (Ex.picks "q2") in
  let db1 := fst (handle_response env "s1" "answer A" Ex.db_started) in
  let db2 := fst (handle_response env "s1" "answer B" db1) in
  let db3 := fst (handle_response (Ex.env_report_fails (Ex.picks "q2")) "s1" "more" db2) in
  journal db2 =
    [WSession "s1"; WResponse "s1" "q1"; WResponse "s1" "q2";
     WStatus "s1" "completed";
     WEvaluation "s1" "detailed"; WEvaluation "s1" "detailed"; WEvaluation "s1" "overall";
     WReport "s1"] /\
  session_status "s1" db2 = Some "completed" /\
  session_status "s1" db3 = Some "error".
Proof.
  cbv zeta. split; [|split]; vm_compute; reflexivity.
Qed.

(* ===================================================================== *)
(** ** The walk over the stages of a staged scenario *)
(* ===================================================================== *)

Section StagedWalk.

Import NewScenarioManager.

Lemma index_None (x : string) (names : list string) :
  x ∉ names -> index x names = None.
Proof.
  induction names as [|y names IH]; simpl; intros Hx; [reflexivity|].
  apply not_elem_of_cons in Hx as [Hne Hx].
  rewrite bool_decide_eq_false_2 by congruence. rewrite (IH Hx). reflexivity.
Qed.

Lemma flow_lookup (f : list (string * StageData)) i name data :
  NoDup (map fst f) -> f !! i = Some (name, data) ->
  index name (map fst f) = Some i /\ flow_item f name = Some data.
Proof.
  revert i. induction f as [|[k d] f IH]; intros i Hnd Hi; [discriminate|].
  simpl in Hnd. apply NoDup_cons in Hnd as [Hk Hnd].
  destruct i as [|i]; simpl in Hi.
  - injection Hi as -> ->. unfold flow_item. simpl.
    rewrite !bool_decide_eq_true_2 by reflexivity. auto.
  - destruct (IH i Hnd Hi) as [Hidx Hitem].
    assert (k <> name) as Hne.
    { intros ->. apply Hk. apply list_elem_of_In, in_map_iff.
      exists (name, data). split; [reflexivity|].
      apply list_elem_of_In. eapply list_elem_of_lookup_2. exact Hi. }
    unfold flow_item in *. simpl.
    rewrite !bool_decide_eq_false_2 by assumption. rewrite Hidx. auto.
Qed.

Lemma next_of_none l scenario_id flow :
  staged l scenario_id flow ->
  get_next_conversation_stage l scenario_id None = as_question <$> head flow.
Proof.
  intros (sc & Hfound & Hstaged & Hflow & Hkeys).
  unfold get_next_conversation_stage. rewrite Hfound, Hstaged, Hflow. simpl.
  destruct flow as [|[k d] rest]; [reflexivity|]. simpl.
  unfold flow_item. simpl. rewrite bool_decide_eq_true_2 by reflexivity. reflexivity.
Qed.

Lemma next_of_stage l scenario_id flow i name data :
  staged l scenario_id flow ->
  flow !! i = Some (name, data) ->
  get_next_conversation_stage l scenario_id (Some name) = as_question <$> flow !! S i.
Proof.
  intros (sc & Hfound & Hstaged & Hflow & Hkeys) Hi.
  unfold get_next_conversation_stage. rewrite Hfound, Hstaged, Hflow. simpl.
  destruct (flow_lookup flow i name data Hkeys Hi) as [Hidx _].
  assert (flow <> []) as Hne by (intros ->; discriminate).
  destruct flow as [|kv rest] eqn:E; [congruence|]. rewrite <- E in *.
  rewrite Hidx. rewrite length_map.
  replace (i + 1) with (S i) by lia.
  destruct (flow !! S i) as [[k d]|] eqn:Hnext.
  - rewrite bool_decide_eq_true_2 by (apply lookup_lt_Some in Hnext; lia).
    rewrite list_lookup_fmap, Hnext. simpl.
    destruct (flow_lookup flow (S i) k d Hkeys Hnext) as [_ ->]. reflexivity.
  - rewrite bool_decide_eq_false_2 by (apply lookup_ge_None in Hnext; lia).
    reflexivity.
Qed.

Lemma next_of_unknown l scenario_id flow name :
  staged l scenario_id flow ->
  name ∉ map fst flow ->
  get_next_conversation_stage l scenario_id (Some name) = None.
Proof.
  intros (sc & Hfound & Hstaged & Hflow & Hkeys) Hname.
  unfold get_next_conversation_stage. rewrite Hfound, Hstaged, Hflow. simpl.
  rewrite (index_None _ _ Hname). destruct flow; reflexivity.
Qed.

Lemma walk_from_stage l scenario_id flow fuel i name data :
  staged l scenario_id flow ->
  flow !! i = Some (name, data) ->
  walk l scenario_id fuel (Some name) = map as_question (take fuel (drop (S i) flow)).
Proof.
  intros Hst. revert i name data.
  induction fuel as [|fuel IH]; intros i name data Hi; simpl.
  - reflexivity.
  - rewrite (next_of_stage l scenario_id flow i name data Hst Hi).
    destruct (flow !! S i) as [[k d]|] eqn:Hnext; simpl.
    + rewrite (IH (S i) k d Hnext).
      rewrite (drop_S flow (k, d) (S i) Hnext). reflexivity.
    + rewrite drop_ge by (apply lookup_ge_None in Hnext; lia). reflexivity.
Qed.

(** C5.  For a staged scenario found under its id: [None] yields the first
    declared stage; a stage yields the stage declared right after it, and
    [None] when it is the last one; a name that is no stage yields [None];
    and the walk that starts from [None] and feeds each stage back returns
    every stage exactly once, in declared order, and then stops on [None]. *)
Theorem next_stage_enumerates_flow (l : Loaded) (scenario_id : string)
    (flow : list (string * StageData)) :
  staged l scenario_id flow ->
  get_next_conversation_stage l scenario_id None = as_question <$> head flow /\
  (forall i name data, flow !! i = Some (name, data) ->
     get_next_conversation_stage l scenario_id (Some name) = as_question <$> flow !! S i) /\
  (forall name data, last flow = Some (name, data) ->
     get_next_conversation_stage l scenario_id (Some name) = None) /\
  (forall name, name ∉ map fst flow ->
     get_next_conversation_stage l scenario_id (Some name) = None) /\
  (forall fuel, List.length flow < fuel ->
     walk l scenario_id fuel None = map as_question flow).
Proof.
  intros Hst.
  split; [exact (next_of_none _ _ _ Hst)|].
  split; [intros i name data; exact (next_of_stage _ _ _ i name data Hst)|].
  split; [|split; [intros name; exact (next_of_unknown _ _ _ name Hst)|]].
  - intros name data Hlast. rewrite last_lookup in Hlast.
    rewrite (next_of_stage _ _ _ _ name data Hst Hlast).
    rewrite (proj2 (lookup_ge_None flow (S (pred (List.length flow))))) by lia.
    reflexivity.
  - intros fuel Hfuel. destruct fuel as [|fuel]; [lia|]. simpl.
    rewrite (next_of_none _ _ _ Hst).
    destruct (flow !! 0) as [[k d]|] eqn:H0.
    + rewrite head_lookup, H0. simpl.
      rewrite (walk_from_stage _ _ _ fuel 0 k d Hst H0).
      rewrite take_ge by (rewrite length_drop; lia).
      change (map as_question ((k, d) :: drop 1 flow) = map as_question flow).
      rewrite <- (drop_S flow (k, d) 0 H0). reflexivity.
    + apply lookup_ge_None in H0.
      assert (flow = []) as -> by (destruct flow; [reflexivity|simpl in H0; lia]).
      reflexivity.
Qed.

End StagedWalk.

Lemma next_stage_enumerates_flow_witness :
  NewScenarioManager.walk NewScenarioManager.loaded_example "support" 4 None =
    map NewScenarioManager.as_question NewScenarioManager.support_flow /\
  NewScenarioManager.get_next_conversation_stage
    NewScenarioManager.loaded_example "support" (Some "closing") = None.
Proof.
  assert (NewScenarioManager.staged NewScenarioManager.loaded_example "support"
            NewScenarioManager.support_flow) as Hst.
  { eexists. repeat split; try reflexivity.
    apply (bool_decide_unpack _). vm_compute. exact I. }
  destruct (next_stage_enumerates_flow NewScenarioManager.loaded_example "support"
              NewScenarioManager.support_flow Hst) as (_ & _ & Hlast & _ & Hwalk).
  split.
  - apply Hwalk. simpl. lia.
  - apply (Hlast "closing" {| NewScenarioManager.agent_goals := Some ["summarise"; "thank"] |}).
    reflexivity.
Defined.

(* ===================================================================== *)
(** ** The summarization reducer *)
(* ===================================================================== *)

Section Reducer.

Import Summarizer.

Variable llm : Llm.
Variable chunk_size : nat.

(** C7 (code bug).  For contents that are not empty,
    [summarize_interview_history] compiles the graph and raises the
    [TypeError] of [async for] over the coroutine [ainvoke] returned: no
    node of the graph runs, no chain is called, no collapse round is made
    and no final summary is produced, whatever the model and the budget.
    The nodes would not produce one either: [generate_summary] and
    [generate_final_summary] fill a prompt whose variable is ["document"]
    from a dict that has the key ["context"], respectively ["docs"], and
    raise [KeyError] before the model is called. *)
Theorem summarization_raises_before_the_graph_runs (content : string)
    (contents : list string) :
  summarize_interview_history llm chunk_size (content :: contents) =
    {| run_calls := []; run_rounds := 0; run_result := inl AsyncForTypeError |} /\
  generate_summary llm content = ([], inl PromptKeyError) /\
  generate_final_summary llm (content :: contents) = ([], inl PromptKeyError).
Proof.
  split; [|split].
  - unfold summarize_interview_history, async_for. reflexivity.
  - unfold generate_summary, invoke_chain, prompt_input. reflexivity.
  - unfold generate_final_summary, invoke_chain, prompt_input. reflexivity.
Qed.

(** C10.  With no contents, [summarize_interview_history] raises before any
    chain is called, so the evaluation step of a session whose history holds
    no exchange (no agent and no candidate message) gets the placeholder
    ["Error generating summary."] as its summary. *)
Theorem empty_contents_give_placeholder :
  summarize_interview_history llm chunk_size [] =
    {| run_calls := []; run_rounds := 0; run_result := inl NoContents |} /\
  forall history,
    Forall (fun m => exists c, m = SystemMessage c) history ->
    interview_contents history = [] /\
    run_evaluation_tools_summary llm chunk_size history = "Error generating summary.".
Proof.
  split; [reflexivity|]. intros history Hsys.
  assert (interview_contents history = []) as Hempty.
  { induction Hsys as [|m history [c ->] _ IH]; [reflexivity|]. exact IH. }
  split; [exact Hempty|].
  unfold run_evaluation_tools_summary. rewrite Hempty. reflexivity.
Qed.

End Reducer.

Lemma empty_contents_give_placeholder_witness :
  Summarizer.run_evaluation_tools_summary Summarizer.flat_llm 1000
    [SystemMessage SYSTEM_PROMPT] = "Error generating summary.".
Proof.
  apply (proj2 (empty_contents_give_placeholder Summarizer.flat_llm 1000)
           [SystemMessage SYSTEM_PROMPT]).
  repeat constructor. eexists. reflexivity.
Defined.

(* ===================================================================== *)
(** ** Further properties of the turn engine *)
(* ===================================================================== *)

Lemma select_random_scenario_Some scenarios rnd :
  scenarios <> [] ->
  exists sc, select_random_scenario scenarios rnd = Some sc /\ sc ∈ scenarios.
Proof.
  intros Hne. unfold select_random_scenario.
  assert (rnd mod List.length scenarios < List.length scenarios) as Hlt.
  { apply Nat.mod_upper_bound. destruct scenarios; [congruence|simpl; lia]. }
  destruct (lookup_lt_is_Some_2 scenarios _ Hlt) as [sc Hsc].
  exists sc. split; [exact Hsc|]. eapply list_elem_of_lookup_2. exact Hsc.
Qed.

Lemma get_scenario_by_id_in scenarios i sc :
  get_scenario_by_id scenarios i = Some sc -> sc ∈ scenarios /\ sc_id sc = i.
Proof.
  unfold get_scenario_by_id. intros H. apply find_some in H as [Hin Hid].
  split; [by apply list_elem_of_In|]. by apply bool_decide_eq_true_1 in Hid.
Qed.

(** X1.  When scenarios are loaded and each has a question, [start_interview]
    returns a session whatever id is asked for: an id that is not found
    falls back to a random scenario; an id that is found gives that
    scenario.  The session is on the first question of its scenario, which
    is the only asked id, with the system prompt and the opening message as
    history and no analysis.  With no scenario loaded it raises. *)
Theorem start_interview_falls_back (scenarios : list Scenario) (rnd : nat)
    (scenario_id : option string) :
  scenarios <> [] ->
  Forall (fun sc => exists q qs, sc_questions sc = Some (q :: qs)) scenarios ->
  (exists sc first rest,
     sc ∈ scenarios /\ sc_questions sc = Some (first :: rest) /\
     (forall i found, scenario_id = Some i -> i <> "" ->
        get_scenario_by_id scenarios i = Some found -> sc = found) /\
     start_interview scenarios rnd scenario_id =
       Ok {| scenario := Some sc; current_question_index := Some 0;
             questions_asked := Some [q_id first];
             conversation_history :=
               Some [SystemMessage SYSTEM_PROMPT;
                     AIMessage ("Let's begin the interview. " +:+ q_question first)];
             evaluation := Some ∅; current_question := Some first;
             awaiting_clarification := None; interview_complete := None |}) /\
  start_interview [] rnd scenario_id =
    Raise (ValueError "No scenarios available to start interview").
Proof.
  intros Hne Hall. split.
  - destruct (select_random_scenario_Some scenarios rnd Hne) as (rsc & Hr & Hrin).
    assert (exists sc, sc ∈ scenarios /\
              (forall i found, scenario_id = Some i -> i <> "" ->
                 get_scenario_by_id scenarios i = Some found -> sc = found) /\
              match scenario_id with
              | Some i =>
                  if bool_decide (i = "") then select_random_scenario scenarios rnd
                  else match get_scenario_by_id scenarios i with
                       | Some sc => Some sc
                       | None => select_random_scenario scenarios rnd
                       end
              | None => select_random_scenario scenarios rnd
              end = Some sc) as (sc & Hin & Hfound & Hsel).
    { destruct scenario_id as [i|].
      - destruct (bool_decide (i = "")) eqn:Hi.
        + apply bool_decide_eq_true_1 in Hi. exists rsc. repeat split; auto.
          intros i' found Hi' Hne'. congruence.
        + destruct (get_scenario_by_id scenarios i) as [sc|] eqn:Hget.
          * exists sc. split; [exact (proj1 (get_scenario_by_id_in _ _ _ Hget))|].
            split; [|reflexivity]. intros i' found Hi' _ Hf. congruence.
          * exists rsc. repeat split; auto. intros i' found Hi' _ Hf. congruence.
      - exists rsc. repeat split; auto. discriminate. }
    rewrite Forall_forall in Hall. destruct (Hall sc Hin) as (q & qs & Hqs).
    exists sc, q, qs. repeat split; auto.
    unfold start_interview. rewrite Hsel, Hqs. reflexivity.
  - unfold start_interview, select_random_scenario, get_scenario_by_id. simpl.
    destruct scenario_id as [i|]; [destruct (bool_decide (i = ""))|]; reflexivity.
Qed.

Lemma start_interview_falls_back_witness :
  exists s, start_interview [Ex.three; Ex.two] 1 (Some "no such scenario") = Ok s.
Proof.
  destruct (start_interview_falls_back [Ex.three; Ex.two] 1 (Some "no such scenario"))
    as [(sc & first & rest & _ & _ & _ & Hstart) _].
  - discriminate.
  - repeat constructor; eexists _, _; reflexivity.
  - eexists. exact Hstart.
Defined.

(** X2.  A session dict without its current question, or without its
    conversation history, is returned as it is: nothing is recorded and no
    chain is called. *)
Theorem process_response_keeps_malformed (o : Oracle) (response : string) (w : World) :
  current_question (w_session w) = None \/ conversation_history (w_session w) = None ->
  process_response o response w = (w, Ok (w_session w)).
Proof.
  intros H. unfold process_response, try_except, bind, read_session.
  destruct (session_is_empty (w_session w)); [reflexivity|].
  destruct (current_question (w_session w)) as [cq|]; [|reflexivity].
  destruct H as [H|H]; [discriminate|].
  unfold append_history, bind, read_session. rewrite H. reflexivity.
Qed.

Lemma process_response_keeps_malformed_witness :
  process_response Ex.clarifies "answer" (new_world empty_session) =
    (new_world empty_session, Ok empty_session).
Proof.
  apply (process_response_keeps_malformed Ex.clarifies "answer" (new_world empty_session)).
  left. reflexivity.
Defined.

(** X3.  [select_next_question] never raises and never changes the session;
    it calls the chain at most once; and a question it returns is a question
    of the scenario whose id is not among the asked ids. *)
Theorem select_next_question_is_sound (o : Oracle) (w : World) :
  exists w' r,
    select_next_question o w = (w', Ok r) /\
    w_session w' = w_session w /\
    (w_calls w' = w_calls w \/ exists c, w_calls w' = w_calls w ++ [c]) /\
    (forall q, r = Some q ->
       exists sc qs asked,
         scenario (w_session w) = Some sc /\ sc_questions sc = Some qs /\
         questions_asked (w_session w) = Some asked /\
         q ∈ qs /\ q_id q ∉ asked).
Proof.
  destruct (scenario (w_session w)) as [sc|] eqn:Hsc.
  2:{ exists w, None. split; [|repeat split; auto; discriminate].
      unfold select_next_question, try_except, bind, read_session. rewrite Hsc.
      destruct (session_is_empty (w_session w)); reflexivity. }
  destruct (questions_asked (w_session w)) as [asked|] eqn:Hasked.
  2:{ exists w, None. split; [|repeat split; auto; discriminate].
      unfold select_next_question, try_except, bind, read_session. rewrite Hsc, Hasked.
      destruct (session_is_empty (w_session w)); reflexivity. }
  destruct (sc_questions sc) as [qs|] eqn:Hqs.
  2:{ exists w, None. split; [|repeat split; auto; discriminate].
      unfold select_next_question, try_except, bind, read_session.
      rewrite Hsc, Hasked, Hqs.
      destruct (session_is_empty (w_session w)); reflexivity. }
  rewrite (select_next_question_eq o w sc qs asked Hsc Hqs Hasked).
  assert (forall q, q ∈ available_questions qs asked ->
            exists sc' qs' asked',
              Some sc = Some sc' /\ sc_questions sc' = Some qs' /\
              Some asked = Some asked' /\ q ∈ qs' /\ q_id q ∉ asked') as Hsound.
  { intros q Hq. apply available_in in Hq as [Hq Hn]. exists sc, qs, asked. auto. }
  destruct (available_questions qs asked) as [|q0 [|q1 rest]] eqn:Hav.
  - exists w, None. repeat split; auto. discriminate.
  - exists w, (Some q0). repeat split; auto.
    intros q [= <-]. apply Hsound. apply list_elem_of_here.
  - destruct (conversation_history (w_session w)) as [h|].
    + eexists _, _. split; [reflexivity|]. split; [reflexivity|].
      split; [right; eexists; reflexivity|].
      intros q [= <-]. apply Hsound.
      destruct (next_question_chain o _ _ _ _);
        [apply match_question_in|]; apply list_elem_of_here.
    + exists w, (Some q0). repeat split; auto.
      intros q [= <-]. apply Hsound. apply list_elem_of_here.
Qed.

(** X4.  A turn on a session whose keys are present appends exactly two
    messages to the history: the candidate's response, then one agent
    message, which is the follow-up question of the clarification, or the
    closing message (the session is then complete), or the text of the
    question that became current. *)
Theorem turn_appends_two_messages (o : Oracle) (w : World) response sc qs asked h ev cq :
  well_formed (w_session w) sc qs asked h ev cq ->
  let s' := w_session (fst (process_response o response w)) in
  exists m,
    conversation_history s' = Some (h ++ [HumanMessage response; AIMessage m]) /\
    (asks_clarification o (q_question cq) response = Some m \/
     (AIMessage m = closing_message /\ interview_complete s' = Some true) \/
     (exists q, q ∈ qs /\ m = q_question q /\ current_question s' = Some q)).
Proof.
  intros Hwf. cbv zeta.
  destruct (asks_clarification o (q_question cq) response) as [text|] eqn:Hclar.
  - destruct (clarified_turn o w response sc qs asked h ev cq text Hwf Hclar)
      as ((_ & _ & _ & Hh & _) & _).
    exists text. auto.
  - destruct (turn_cases o w response sc qs asked h ev cq Hwf Hclar)
      as [((_ & _ & _ & Hh & _) & Hc & _)|(q & (_ & _ & _ & Hh & _ & Hcq) & _ & Hq & _)].
    + eexists. rewrite Hh, <- app_assoc. split; [reflexivity|]. right. left. auto.
    + exists (q_question q). rewrite Hh, <- app_assoc. split; [reflexivity|].
      right. right. exists q. apply available_in in Hq as [Hq _]. auto.
Qed.

Lemma turn_appends_two_messages_witness :
  exists m,
    conversation_history
      (w_session (fst (process_response Ex.clarifies "vague" (new_world (Ex.started Ex.two)))))
      = Some (Ex.opening ++ [HumanMessage "vague"; AIMessage m]).
Proof.
  destruct (turn_appends_two_messages Ex.clarifies (new_world (Ex.started Ex.two)) "vague"
              Ex.two [Ex.q1; Ex.q2] ["q1"] Ex.opening ∅ Ex.q1) as (m & Hm & _).
  - repeat split; reflexivity.
  - exists m. exact Hm.
Defined.

(** X5.  The chain calls of a turn on a session whose keys are present: the
    clarification chain is called first, always; when it asks a follow-up
    question nothing else is called; otherwise the analysis chain is called,
    and the next-question chain is called after it exactly when fewer
    questions were asked than the scenario has and at least two questions
    are still available. *)
Theorem chain_calls_of_a_turn (o : Oracle) (w : World) response sc qs asked h ev cq :
  well_formed (w_session w) sc qs asked h ev cq ->
  let calls' := w_calls (fst (process_response o response w)) in
  let clarification := CallClarification (q_question cq) response in
  let analysis := CallAnalysis (q_question cq) response in
  match asks_clarification o (q_question cq) response with
  | Some _ => calls' = w_calls w ++ [clarification]
  | None =>
      if bool_decide (List.length asked < List.length qs /\
                      2 <= List.length (available_questions qs asked))
      then exists title descr avail hist,
             calls' = w_calls w ++
                        [clarification; analysis; CallNextQuestion title descr avail hist]
      else calls' = w_calls w ++ [clarification; analysis]
  end.
Proof.
  intros Hwf. cbv zeta.
  rewrite (process_response_eq o w response sc qs asked h ev cq Hwf). cbv zeta.
  destruct (asks_clarification o (q_question cq) response) as [text|]; [reflexivity|].
  destruct (bool_decide (List.length qs <= List.length asked)) eqn:Hlen.
  { apply bool_decide_eq_true_1 in Hlen.
    rewrite bool_decide_eq_false_2 by lia. simpl. rewrite <- app_assoc. reflexivity. }
  apply bool_decide_eq_false_1 in Hlen.
  destruct (available_questions qs asked) as [|q0 [|q1 rest]]; simpl.
  - rewrite bool_decide_eq_false_2 by lia. rewrite <- app_assoc. reflexivity.
  - rewrite bool_decide_eq_false_2 by lia. rewrite <- app_assoc. reflexivity.
  - rewrite bool_decide_eq_true_2 by lia.
    eexists _, _, _, _. rewrite <- !app_assoc. reflexivity.
Qed.

Lemma chain_calls_of_a_turn_witness :
  w_calls (fst (process_response Ex.clarifies "vague" (new_world (Ex.started Ex.two)))) =
    [CallClarification "Design the services." "vague"].
Proof.
  exact (chain_calls_of_a_turn Ex.clarifies (new_world (Ex.started Ex.two)) "vague"
           Ex.two [Ex.q1; Ex.q2] ["q1"] Ex.opening ∅ Ex.q1
           ltac:(repeat split; reflexivity)).
Defined.

Lemma run_turns_engine_inv (turns : list (string * Oracle)) (w : World) qs :
  engine_inv qs (w_session w) ->
  engine_inv qs (w_session (run_turns turns w)) /\
  remaining qs (w_session (run_turns turns w)) <= remaining qs (w_session w).
Proof.
  revert w. induction turns as [|[response o] turns IH]; intros w Hinv; simpl.
  - auto.
  - destruct (turn_inv o response w qs Hinv) as (Hinv' & Hle & _).
    destruct (IH _ Hinv') as [Hi Hr]. split; [exact Hi|lia].
Qed.

Lemma run_turns_app (turns more : list (string * Oracle)) (w : World) :
  run_turns (turns ++ more) w = run_turns more (run_turns turns w).
Proof.
  revert w. induction turns as [|[response o] turns IH]; intros w; simpl; auto.
Qed.

(** X6.  In a session started by [start_interview] and driven by
    [process_response] alone, whatever the responses and whatever the chains
    answer: the asked ids are pairwise distinct ids of the scenario's
    questions, so no more ids are asked than the scenario has questions,
    and the current question is one of them. *)
Theorem engine_asks_each_question_once scenarios rnd sid s0 sc qs
    (turns : list (string * Oracle)) :
  start_interview scenarios rnd sid = Ok s0 ->
  scenario s0 = Some sc -> sc_questions sc = Some qs ->
  let s := w_session (run_turns turns (new_world s0)) in
  exists asked cq,
    questions_asked s = Some asked /\ current_question s = Some cq /\
    NoDup asked /\ (forall i, i ∈ asked -> i ∈ map q_id qs) /\
    q_id cq ∈ asked /\ List.length asked <= List.length qs.
Proof.
  intros Hstart Hsc Hqs s.
  destruct (start_interview_inv _ _ _ _ _ _ Hstart Hsc Hqs) as (Hinv & _).
  destruct (run_turns_engine_inv turns (new_world s0) qs Hinv)
    as [(sc' & asked & h & ev & cq & Hwf & Hnd & Hsub & Hcur & _) _].
  destruct Hwf as (_ & _ & Hasked & _ & _ & Hcq).
  exists asked, cq. repeat split; auto.
  rewrite <- (length_map q_id qs).
  apply NoDup_incl_length; [by apply NoDup_ListNoDup|].
  intros i Hi. apply list_elem_of_In, Hsub, list_elem_of_In, Hi.
Qed.

Lemma engine_asks_each_question_once_witness :
  exists asked cq,
    questions_asked (w_session (run_turns [("a", Ex.picks "q3"); ("b", Ex.picks "q3")]
                                  (new_world (Ex.started Ex.three)))) = Some asked /\
    current_question (w_session (run_turns [("a", Ex.picks "q3"); ("b", Ex.picks "q3")]
                                   (new_world (Ex.started Ex.three)))) = Some cq /\
    NoDup asked.
Proof.
  destruct (engine_asks_each_question_once [Ex.three] 0 (Some "backend")
              (Ex.started Ex.three) Ex.three [Ex.q1; Ex.q2; Ex.q3]
              [("a", Ex.picks "q3"); ("b", Ex.picks "q3")] eq_refl eq_refl eq_refl)
    as (asked & cq & Ha & Hc & Hnd & _).
  exists asked, cq. auto.
Defined.

(** X7.  A session started by [start_interview] that is complete stays
    complete however many further responses are submitted, and every
    question of the scenario keeps an analysis. *)
Theorem completed_session_stays_complete scenarios rnd sid s0 sc qs
    (turns more : list (string * Oracle)) :
  start_interview scenarios rnd sid = Ok s0 ->
  scenario s0 = Some sc -> sc_questions sc = Some qs ->
  interview_complete (w_session (run_turns turns (new_world s0))) = Some true ->
  let s := w_session (run_turns (turns ++ more) (new_world s0)) in
  interview_complete s = Some true /\
  forall q, q ∈ qs -> exists ev, evaluation s = Some ev /\ is_Some (ev !! q_id q).
Proof.
  intros Hstart Hsc Hqs Hdone s.
  destruct (start_interview_inv _ _ _ _ _ _ Hstart Hsc Hqs) as (Hinv & _).
  destruct (run_turns_engine_inv turns (new_world s0) qs Hinv) as [Hinv1 _].
  subst s. rewrite run_turns_app.
  destruct (run_turns_engine_inv more (run_turns turns (new_world s0)) qs Hinv1)
    as [Hinv2 Hrem].
  set (s := w_session (run_turns more (run_turns turns (new_world s0)))) in *.
  assert (interview_complete s = Some true) as Hdone'.
  { unfold remaining in Hrem. rewrite Hdone in Hrem.
    destruct (interview_complete s) as [[]|]; [reflexivity|lia..]. }
  split; [exact Hdone'|]. intros q Hq.
  destruct Hinv2 as (sc' & asked & h & ev & cq & Hwf & _ & _ & _ & _ & Hfull).
  destruct Hwf as (_ & _ & _ & _ & Hev & _).
  exists ev. split; [exact Hev|]. exact (Hfull Hdone' q Hq).
Qed.

Lemma completed_session_stays_complete_witness :
  interview_complete
    (w_session (run_turns ([("a", Ex.picks "q2"); ("b", Ex.picks "q2")] ++
                           [("c", Ex.clarifies)])
                  (new_world (Ex.started Ex.two)))) = Some true.
Proof.
  apply (completed_session_stays_complete [Ex.three; Ex.two] 0 (Some "api")
           (Ex.started Ex.two) Ex.two [Ex.q1; Ex.q2]
           [("a", Ex.picks "q2"); ("b", Ex.picks "q2")] [("c", Ex.clarifies)]);
    reflexivity.
Defined.

(** X8.  A turn that is not interrupted by a clarification records the
    response under the current question id, with the question text and the
    analysis of the chain (the default one when it raised), replacing what
    was recorded for that id; the entries of the other ids are unchanged. *)
Theorem turn_records_the_response (o : Oracle) (w : World) response sc qs asked h ev cq :
  well_formed (w_session w) sc qs asked h ev cq ->
  asks_clarification o (q_question cq) response = None ->
  exists ev',
    evaluation (w_session (fst (process_response o response w))) = Some ev' /\
    ev' !! q_id cq =
      Some {| ev_question := q_question cq; ev_response := response;
              ev_analysis := recorded_analysis o (q_question cq) response |} /\
    forall i, i <> q_id cq -> ev' !! i = ev !! i.
Proof.
  intros Hwf Hclar.
  destruct (turn_cases o w response sc qs asked h ev cq Hwf Hclar)
    as [(Hwf' & _)|(q & Hwf' & _)];
    destruct Hwf' as (_ & _ & _ & _ & Hev' & _);
    eexists; (split; [exact Hev'|]); (split; [apply lookup_insert_eq|]);
    intros i Hi; apply lookup_insert_ne; congruence.
Qed.

Lemma turn_records_the_response_witness :
  exists ev',
    evaluation (w_session (fst (process_response (Ex.picks "q2") "answer A"
                                  (new_world (Ex.started Ex.three))))) = Some ev' /\
    ev' !! "q1" = Some {| ev_question := "Design the services."; ev_response := "answer A";
                          ev_analysis := analysis_dict (Ex.scores 7) |}.
Proof.
  destruct (turn_records_the_response (Ex.picks "q2") (new_world (Ex.started Ex.three))
              "answer A" Ex.three [Ex.q1; Ex.q2; Ex.q3] ["q1"] Ex.opening ∅ Ex.q1)
    as (ev' & Hev & Hq & _).
  - repeat split; reflexivity.
  - reflexivity.
  - exists ev'. split; [exact Hev|exact Hq].
Defined.

(* ===================================================================== *)
(** ** The identifier extracted from the chain's answer *)
(* ===================================================================== *)

Lemma rstrip_keeps_prefix (a : string) (c : ascii) (b : string) :
  PyStr.is_space c = false ->
  PyStr.rstrip (a +:+ String c b) = a +:+ String c (PyStr.rstrip b).
Proof.
  intros Hc. induction a as [|x a IH]; simpl.
  - rewrite Hc. destruct (PyStr.rstrip b); reflexivity.
  - rewrite IH. destruct a; reflexivity.
Qed.

Lemma startswith_before_other (p t r : string) (c : ascii) :
  Forall (fun x => x <> c) (list_ascii_of_string p) ->
  PyStr.startswith p (t +:+ String c r) = PyStr.startswith p t.
Proof.
  revert t. induction p as [|a p IH]; intros t Hp; [reflexivity|].
  simpl in Hp. apply Forall_cons in Hp as [Ha Hp].
  destruct t as [|b t]; simpl.
  - destruct (decide (a = c)); [contradiction|reflexivity].
  - destruct (decide (a = b)); [apply IH; exact Hp|reflexivity].
Qed.

Lemma replace_keeps_plain_prefix (t r : string) :
  str_contains "ID: " t = false ->
  PyStr.replace_from "ID: " "" 0 (t +:+ String "," r) =
    t +:+ String "," (PyStr.replace_from "ID: " "" 0 r).
Proof.
  induction t as [|c t IH]; intros Ht.
  - reflexivity.
  - cbn [str_contains] in Ht. apply orb_false_elim in Ht as [Hhere Ht].
    change (String c t +:+ String "," r) with (String c (t +:+ String "," r)).
    cbn [PyStr.replace_from].
    change (String c (t +:+ String "," r)) with (String c t +:+ String "," r).
    rewrite startswith_before_other by (repeat constructor; discriminate).
    rewrite Hhere. rewrite (IH Ht). reflexivity.
Qed.

Lemma split_head_plain_prefix (t r : string) :
  str_contains "," t = false ->
  PyStr.split_head "," (t +:+ String "," r) = t.
Proof.
  induction t as [|c t IH]; intros Ht; simpl.
  - reflexivity.
  - cbn [str_contains] in Ht. apply orb_false_elim in Ht as [Hhere Ht].
    simpl in Hhere.
    destruct (decide (c = ","%char)) as [->|Hne].
    + simpl in Hhere. discriminate.
    + rewrite (IH Ht). reflexivity.
Qed.

(** X9.  The prompt shows each available question as
    ["ID: <id>, Question: <text>"].  When the chain answers with such a
    line, or with any text that starts with ["ID: "], the id and a comma,
    and the answer is made of ASCII characters, the identifier extracted is
    that id, provided the id holds no comma, no ["ID: "] and no white space
    at its ends; [select_next_question] then returns an available question
    with that id. *)
Theorem answer_line_gives_its_id (i rest : string) :
  PyStr.is_ascii i = true ->
  PyStr.is_ascii rest = true ->
  str_contains "ID: " i = false ->
  str_contains "," i = false ->
  PyStr.strip i = i ->
  clean_id ("ID: " +:+ i +:+ String "," rest) = i /\
  forall o w sc qs asked h first second others q,
    scenario (w_session w) = Some sc ->
    sc_questions sc = Some qs ->
    questions_asked (w_session w) = Some asked ->
    conversation_history (w_session w) = Some h ->
    available_questions qs asked = first :: second :: others ->
    q ∈ first :: second :: others -> q_id q = i ->
    next_question_chain o
      (default "Unknown Scenario" (sc_title sc))
      (default "No description available" (sc_description sc))
      (available_questions_text (first :: second :: others))
      (conversation_history_text h) = Some ("ID: " +:+ i +:+ String "," rest) ->
    exists q', snd (select_next_question o w) = Ok (Some q') /\
               q' ∈ first :: second :: others /\ q_id q' = i.
Proof.
  intros Hascii Hascii' Hid Hcomma Hstrip.
  assert (clean_id ("ID: " +:+ i +:+ String "," rest) = i) as Hclean.
  { unfold clean_id, PyStr.strip.
    change (PyStr.lstrip ("ID: " +:+ i +:+ String "," rest))
      with ("ID: " +:+ i +:+ String "," rest).
    replace ("ID: " +:+ i +:+ String "," rest)
      with (("ID: " +:+ i) +:+ String "," rest)
      by (simpl; reflexivity).
    rewrite rstrip_keeps_prefix by reflexivity.
    change (PyStr.replace "ID: " "" (("ID: " +:+ i) +:+ String "," (PyStr.rstrip rest)))
      with (PyStr.replace_from "ID: " "" 0 (i +:+ String "," (PyStr.rstrip rest))).
    rewrite (replace_keeps_plain_prefix i _ Hid).
    rewrite (split_head_plain_prefix i _ Hcomma).
    exact Hstrip. }
  split; [exact Hclean|].
  intros o w sc qs asked h first second others q Hsc Hqs Hasked Hh Hav Hq Hqi Hans.
  rewrite (select_next_question_eq o w sc qs asked Hsc Hqs Hasked), Hav, Hh.
  cbv beta iota zeta. rewrite Hans, Hclean. simpl.
  unfold match_question.
  destruct (List.find _ (first :: second :: others)) as [q'|] eqn:Hfind.
  - exists q'. split; [reflexivity|]. apply find_some in Hfind as [Hin Heq].
    split; [by apply list_elem_of_In|]. by apply bool_decide_eq_true_1 in Heq.
  - exfalso. apply list_elem_of_In in Hq.
    pose proof (find_none _ _ Hfind q Hq) as Hno. simpl in Hno.
    rewrite bool_decide_eq_true_2 in Hno by exact Hqi. discriminate.
Qed.

Lemma answer_line_gives_its_id_witness :
  clean_id ("ID: " +:+ "q3" +:+ String "," " Question: Design the schema.") = "q3".
Proof.
  apply (answer_line_gives_its_id "q3" " Question: Design the schema."); reflexivity.
Defined.

(* ===================================================================== *)
(** ** Further properties of the orchestrator and of the store *)
(* ===================================================================== *)

Lemma get_session_update_other sid sid' status db :
  sid' <> sid ->
  get_session sid' (update_session_status sid status db) = get_session sid' db.
Proof.
  intros Hne. unfold get_session, update_session_status. simpl.
  induction (sessions db) as [|r rows IH]; simpl; [reflexivity|].
  destruct (bool_decide (row_session_id r = sid)) eqn:E; simpl.
  - apply bool_decide_eq_true_1 in E.
    rewrite !bool_decide_eq_false_2 by congruence. exact IH.
  - destruct (bool_decide (row_session_id r = sid')); [reflexivity|exact IH].
Qed.

Lemma get_session_update_same sid status db row :
  get_session sid db = Some row ->
  get_session sid (update_session_status sid status db) = Some (with_status status row).
Proof.
  unfold get_session, update_session_status. simpl.
  induction (sessions db) as [|r rows IH]; simpl; [discriminate|].
  destruct (bool_decide (row_session_id r = sid)) eqn:E; simpl; rewrite E.
  - intros [= ->]. reflexivity.
  - exact IH.
Qed.

Lemma view_update_status sid sid' status db :
  sid' <> sid ->
  session_view sid' (update_session_status sid status db) = session_view sid' db.
Proof.
  intros Hne. unfold session_view. rewrite get_session_update_other by exact Hne.
  reflexivity.
Qed.

Lemma view_store_response sid sid' qid text db :
  sid' <> sid ->
  session_view sid' (store_response sid qid text db) = session_view sid' db.
Proof.
  intros Hne. unfold session_view, get_session_responses, store_response. simpl.
  rewrite filter_app, filter_cons. simpl.
  destruct (decide (sid = sid')); [congruence|]. rewrite filter_nil, app_nil_r. reflexivity.
Qed.

Lemma view_store_evaluation sid sid' ty data db :
  sid' <> sid ->
  session_view sid' (store_evaluation sid ty data db) = session_view sid' db.
Proof.
  intros Hne. unfold session_view, get_session_evaluations, store_evaluation. simpl.
  rewrite filter_app, filter_cons. simpl.
  destruct (decide (sid = sid')); [congruence|]. rewrite filter_nil, app_nil_r. reflexivity.
Qed.

Lemma view_store_report sid sid' report db :
  sid' <> sid ->
  session_view sid' (store_report sid report db) = session_view sid' db.
Proof.
  intros Hne. unfold session_view, get_session_reports, store_report. simpl.
  rewrite filter_app, filter_cons. simpl.
  destruct (decide (sid = sid')); [congruence|]. rewrite filter_nil, app_nil_r. reflexivity.
Qed.

Lemma view_store_detailed sid sid' detailed db :
  sid' <> sid ->
  session_view sid' (store_detailed sid detailed db) = session_view sid' db.
Proof.
  intros Hne. unfold store_detailed. revert db.
  induction detailed as [|item detailed IH]; intros db; simpl; [reflexivity|].
  rewrite IH. apply view_store_evaluation. exact Hne.
Qed.

Lemma view_complete_interview env sid sid' sc rs db :
  sid' <> sid ->
  session_view sid' (fst (complete_interview env sid sc rs db)) = session_view sid' db.
Proof.
  intros Hne. unfold complete_interview.
  destruct (env_run_interview env (map snd rs)) as [result|]; simpl;
    [|rewrite !view_update_status by exact Hne; reflexivity].
  destruct (generate_evaluation_report _ _ _ _) as [report|]; simpl;
    [|rewrite !view_update_status by exact Hne; reflexivity].
  destruct (env_export_ok env); simpl;
    rewrite ?view_update_status, view_store_report, view_store_evaluation,
      view_store_detailed, view_update_status by exact Hne; reflexivity.
Qed.

(** X10.  A submission to one session leaves every other session as it
    was: its row and status, its responses, its evaluations and its reports
    are unchanged, whatever the chains answer and whether or not the
    submission completes the interview. *)
Theorem other_sessions_are_untouched (env : Env) (sid sid' response : string) (db : Db) :
  sid' <> sid ->
  session_view sid' (fst (handle_response env sid response db)) = session_view sid' db.
Proof.
  intros Hne. unfold handle_response.
  destruct (get_session sid db) as [row|]; [|reflexivity].
  destruct (get_scenario_by_id _ _) as [sc|]; [|reflexivity].
  destruct (sc_questions sc) as [qs|]; [|reflexivity].
  cbv zeta.
  destruct (handler_current_question qs _) as [[cq|]|e]; [| |reflexivity].
  2:{ apply view_complete_interview. exact Hne. }
  destruct (process_response _ _ _) as [w' [updated|e]]; [|reflexivity].
  pose proof (view_store_response sid sid' (q_id cq) response db Hne) as Hstore.
  destruct (default false (interview_complete updated)).
  { rewrite view_complete_interview by exact Hne. exact Hstore. }
  destruct (sc_title sc), (sc_description sc), (current_question updated),
    (conversation_history updated); try exact Hstore.
  destruct (bool_decide _); [|exact Hstore].
  rewrite view_complete_interview by exact Hne. exact Hstore.
Qed.

Lemma other_sessions_are_untouched_witness :
  session_view "s2" (fst (handle_response (Ex.env (Ex.picks "q2")) "s1" "answer A"
                            (create_session "s2" "backend" Ex.db_started))) =
  session_view "s2" (create_session "s2" "backend" Ex.db_started).
Proof.
  apply (other_sessions_are_untouched (Ex.env (Ex.picks "q2")) "s1" "s2" "answer A").
  discriminate.
Defined.

Lemma handler_current_question_in qs asked cq :
  handler_current_question qs asked = Ok (Some cq) -> cq ∈ qs.
Proof.
  unfold handler_current_question. destruct asked as [|a asked].
  - destruct qs as [|q qs]; [discriminate|]. intros [= ->]. apply list_elem_of_here.
  - intros [= H]. apply find_some in H as [H _]. by apply list_elem_of_In.
Qed.

Lemma complete_interview_not_info env sid sc rs db info :
  snd (complete_interview env sid sc rs db) <> HInfo info.
Proof.
  unfold complete_interview.
  destruct (env_run_interview env (map snd rs)) as [result|]; [|discriminate].
  destruct (generate_evaluation_report _ _ _ _) as [report|]; [|discriminate].
  destruct (env_export_ok env); discriminate.
Qed.

(** What a turn of the engine leaves in a session whose keys are all
    present: it returns, the asked ids only grow, and the current question
    is the old one or a question of the scenario. *)
Lemma turn_outcome o w response sc qs asked h ev cq :
  well_formed (w_session w) sc qs asked h ev cq ->
  exists w' asked' h' cur,
    process_response o response w = (w', Ok (w_session w')) /\
    questions_asked (w_session w') = Some asked' /\
    conversation_history (w_session w') = Some h' /\
    current_question (w_session w') = Some cur /\
    List.length asked <= List.length asked' /\
    (cur = cq \/ cur ∈ qs) /\
    (interview_complete (w_session w') = Some true \/
     interview_complete (w_session w') = interview_complete (w_session w)) /\
    (never_clarifies o ->
     interview_complete (w_session w') = Some true \/
     List.length asked' = S (List.length asked)).
Proof.
  intros Hwf.
  pose proof (process_response_eq o w response sc qs asked h ev cq Hwf) as Heq.
  cbv zeta in Heq.
  destruct (asks_clarification o (q_question cq) response) as [text|] eqn:Hclar.
  - destruct (clarified_turn o w response sc qs asked h ev cq text Hwf Hclar)
      as ((_ & _ & Ha & Hh & _ & Hc) & _ & Hdone).
    rewrite Heq in Ha, Hh, Hc, Hdone. simpl fst in Ha, Hh, Hc, Hdone.
    eexists _, asked, _, cq. split; [exact Heq|]. repeat split; eauto.
    intros Hquiet. rewrite (Hquiet _ _) in Hclar. discriminate.
  - destruct (turn_cases o w response sc qs asked h ev cq Hwf Hclar)
      as [((_ & _ & Ha & Hh & _ & Hc) & Hdone & _)|(q & (_ & _ & Ha & Hh & _ & Hc) & Hdone & Hq & _)];
      rewrite Heq in Ha, Hh, Hc, Hdone; simpl fst in Ha, Hh, Hc, Hdone.
    + eexists _, asked, _, cq. split; [exact Heq|]. repeat split; eauto.
    + eexists _, (asked ++ [q_id q]), _, q. split; [exact Heq|].
      apply available_in in Hq as [Hq _].
      rewrite length_app. simpl. repeat split; eauto; lia.
Qed.

(** X11.  When a submission is answered with the next state of the
    interview (not an error, not the completion), the session and its
    scenario exist, exactly one Turn record was written and nothing else:
    the response, under a question of the scenario that had no stored
    response; fewer responses were stored than the scenario has questions;
    and the question returned is a question of the scenario. *)
Theorem open_answer_stores_one_turn (env : Env) (sid response : string)
    (db db' : Db) (info : SessionInfo) :
  handle_response env sid response db = (db', HInfo info) ->
  exists row sc qs cq,
    get_session sid db = Some row /\
    get_scenario_by_id (env_scenarios env) (row_scenario_id row) = Some sc /\
    sc_questions sc = Some qs /\
    cq ∈ qs /\
    (q_id cq ∉ map resp_question_id (get_session_responses sid db)) /\
    db' = store_response sid (q_id cq) response db /\
    List.length (get_session_responses sid db) < List.length qs /\
    si_session_id info = sid /\
    si_scenario_id info = sc_id sc /\
    si_current_question info ∈ qs.
Proof.
  unfold handle_response. intros H.
  destruct (get_session sid db) as [row|]; [|discriminate].
  destruct (get_scenario_by_id _ _) as [sc|] eqn:Hsc; [|discriminate].
  destruct (sc_questions sc) as [qs|] eqn:Hqs; [|discriminate].
  cbv zeta in H.
  destruct (handler_current_question qs _) as [[cq|]|e] eqn:Hcur; [| |discriminate].
  2:{ exfalso. eapply complete_interview_not_info. rewrite H. reflexivity. }
  match type of H with context [process_response _ _ (new_world ?s)] => set (session := s) in * end.
  destruct (turn_outcome (env_engine env) (new_world session) response sc qs
              (map resp_question_id (get_session_responses sid db))
              (rebuilt_history qs (get_session_responses sid db) ++ [AIMessage (q_question cq)])
              ∅ cq) as (w' & asked' & h' & cur & Hproc & Ha & Hh & Hc & Hlen & Hin & _).
  { unfold well_formed; simpl; auto 10. }
  rewrite Hproc in H. rewrite Ha, Hh, Hc in H. simpl in H.
  destruct (default false (interview_complete (w_session w'))).
  { exfalso. eapply complete_interview_not_info. rewrite H. reflexivity. }
  destruct (sc_title sc) as [title|]; [|discriminate].
  destruct (sc_description sc) as [descr|]; [|discriminate].
  destruct (bool_decide (List.length qs <= List.length asked')) eqn:Hfull.
  { exfalso. eapply complete_interview_not_info. rewrite H. reflexivity. }
  apply bool_decide_eq_false_1 in Hfull. rewrite length_map in Hlen.
  injection H as <- <-. simpl.
  exists row, sc, qs, cq. repeat split; auto.
  - eapply handler_current_question_in, Hcur.
  - eapply current_question_is_unanswered, Hcur.
  - lia.
  - destruct Hin as [->|Hin]; [eapply handler_current_question_in, Hcur | exact Hin].
Qed.

Lemma open_answer_stores_one_turn_witness :
  exists db' info,
    handle_response (Ex.env (Ex.picks "q2")) "s1" "answer A" Ex.db_started = (db', HInfo info) /\
    exists row sc qs cq,
      get_session "s1" Ex.db_started = Some row /\
      get_scenario_by_id (env_scenarios (Ex.env (Ex.picks "q2"))) (row_scenario_id row) = Some sc /\
      sc_questions sc = Some qs /\
      cq ∈ qs /\
      (q_id cq ∉ map resp_question_id (get_session_responses "s1" Ex.db_started)) /\
      db' = store_response "s1" (q_id cq) "answer A" Ex.db_started /\
      List.length (get_session_responses "s1" Ex.db_started) < List.length qs /\
      si_session_id info = "s1" /\
      si_scenario_id info = sc_id sc /\
      si_current_question info ∈ qs.
Proof.
  eexists _, _. split; [vm_compute; reflexivity|].
  apply (open_answer_stores_one_turn (Ex.env (Ex.picks "q2")) "s1" "answer A" Ex.db_started).
  vm_compute. reflexivity.
Defined.

Lemma get_session_create_fresh new_id i db :
  get_session new_id db = None ->
  get_session new_id (create_session new_id i db) =
    Some {| row_session_id := new_id; row_scenario_id := i; row_status := "started" |}.
Proof.
  unfold get_session, create_session. simpl.
  induction (sessions db) as [|r rows IH]; simpl.
  - intros _. rewrite bool_decide_eq_true_2 by reflexivity. reflexivity.
  - destruct (bool_decide (row_session_id r = new_id)); [discriminate|exact IH].
Qed.

Lemma find_by_own_id scenarios sc :
  sc ∈ scenarios -> exists sc', get_scenario_by_id scenarios (sc_id sc) = Some sc'.
Proof.
  intros Hin. unfold get_scenario_by_id.
  destruct (List.find _ scenarios) as [sc'|] eqn:E; [eauto|].
  apply list_elem_of_In in Hin.
  pose proof (find_none _ _ E sc Hin) as Hno. simpl in Hno.
  rewrite bool_decide_eq_true_2 in Hno by reflexivity. discriminate.
Qed.

(** The submission of a response to a session that has an unanswered
    question writes the response under that question, whatever happens
    after the engine's turn. *)
Lemma handle_response_stores env sid response db row sc qs cq :
  get_session sid db = Some row ->
  get_scenario_by_id (env_scenarios env) (row_scenario_id row) = Some sc ->
  sc_questions sc = Some qs ->
  handler_current_question qs (map resp_question_id (get_session_responses sid db)) =
    Ok (Some cq) ->
  responses (fst (handle_response env sid response db)) =
    responses (store_response sid (q_id cq) response db).
Proof.
  intros Hrow Hsc Hqs Hcur. unfold handle_response.
  rewrite Hrow, Hsc, Hqs. cbv zeta. rewrite Hcur.
  match goal with |- context [process_response _ _ (new_world ?s)] => set (session := s) end.
  destruct (turn_outcome (env_engine env) (new_world session) response sc qs
              (map resp_question_id (get_session_responses sid db))
              (rebuilt_history qs (get_session_responses sid db) ++ [AIMessage (q_question cq)])
              ∅ cq) as (w' & asked' & h' & cur & Hproc & _).
  { unfold well_formed; simpl; auto 10. }
  rewrite Hproc.
  destruct (default false (interview_complete (w_session w'))).
  { apply responses_complete_interview. }
  destruct (sc_title sc), (sc_description sc), (current_question (w_session w')),
    (conversation_history (w_session w')); try reflexivity.
  destruct (bool_decide _); [|reflexivity].
  apply responses_complete_interview.
Qed.

Lemma start_interview_session_info env new_id rnd scenario_id db db1 info :
  start_interview_session env new_id rnd scenario_id db = (db1, HInfo info) ->
  exists sc session,
    sc ∈ env_scenarios env /\
    db1 = create_session new_id (sc_id sc) db /\
    start_interview (env_scenarios env) rnd (Some (sc_id sc)) = Ok session /\
    current_question session = Some (si_current_question info) /\
    si_session_id info = new_id /\
    si_scenario_id info = sc_id sc.
Proof.
  unfold start_interview_session. intros H.
  match type of H with
  | context [match ?sel with Ok _ => _ | Raise _ => _ end] =>
      assert (forall sc, sel = Ok (Some sc) -> sc ∈ env_scenarios env) as Hsel;
      [|destruct sel as [[sc|]|e]; try discriminate]
  end.
  { intros sc Hsc.
    assert (select_random_scenario (env_scenarios env) rnd = Some sc ->
            sc ∈ env_scenarios env) as Hrnd.
    { unfold select_random_scenario. apply list_elem_of_lookup_2. }
    destruct scenario_id as [i|]; [|injection Hsc as Hsc; auto].
    destruct (bool_decide (i = "")); [injection Hsc as Hsc; auto|].
    destruct (get_scenario_by_id (env_scenarios env) i) as [sc'|] eqn:E; [|discriminate].
    injection Hsc as <-. apply get_scenario_by_id_in in E. tauto. }
  destruct (start_interview _ _ _) as [session|e] eqn:Hstart; [|discriminate].
  destruct (sc_title sc), (sc_description sc), (current_question session) eqn:Hcur,
    (conversation_history session); try discriminate.
  injection H as <- <-. simpl. exists sc, session.
  split; [apply Hsel; reflexivity|]. auto 10.
Qed.

(** X12.  After a successful start under a fresh session id and a scenario
    with a non-empty id, the session row is stored as started for that
    scenario, and the first submission is stored under the id of the very
    question the start returned, whatever the chains answer: it is then the
    only Turn record of the session. *)
Theorem first_answer_goes_to_the_opening_question (env : Env) (new_id : string)
    (rnd : nat) (scenario_id : option string) (db db1 : Db) (info : SessionInfo)
    (response : string) :
  get_session new_id db = None ->
  get_session_responses new_id db = [] ->
  start_interview_session env new_id rnd scenario_id db = (db1, HInfo info) ->
  si_scenario_id info <> "" ->
  si_session_id info = new_id /\
  get_session new_id db1 =
    Some {| row_session_id := new_id; row_scenario_id := si_scenario_id info;
            row_status := "started" |} /\
  get_session_responses new_id (fst (handle_response env new_id response db1)) =
    [{| resp_session_id := new_id; resp_question_id := q_id (si_current_question info);
        resp_response_text := response |}].
Proof.
  intros Hfresh Hnone Hstart Hid.
  apply start_interview_session_info in Hstart
    as (sc & session & Hin & -> & Hst & Hcur & Hsid & Hscid).
  rewrite Hscid in *. split; [exact Hsid|].
  pose proof (get_session_create_fresh new_id (sc_id sc) db Hfresh) as Hrow.
  split; [exact Hrow|].
  destruct (find_by_own_id _ _ Hin) as [sc' Hfind].
  unfold start_interview in Hst.
  rewrite bool_decide_eq_false_2, Hfind in Hst by exact Hid.
  destruct (sc_questions sc') as [[|first rest]|] eqn:Hqs; try discriminate.
  injection Hst as <-. simpl in Hcur. injection Hcur as Hcur.
  assert (get_session_responses new_id (create_session new_id (sc_id sc) db) = []) as Hrs
    by exact Hnone.
  unfold get_session_responses at 1.
  rewrite (handle_response_stores env new_id response _ _ sc' (first :: rest) first Hrow Hfind Hqs)
    by (rewrite Hrs; reflexivity).
  simpl. rewrite filter_app. fold (get_session_responses new_id db). rewrite Hnone.
  rewrite filter_cons. simpl. destruct (decide (new_id = new_id)); [|congruence].
  rewrite Hcur. reflexivity.
Qed.

Lemma first_answer_goes_to_the_opening_question_witness :
  exists db1 info,
    start_interview_session (Ex.env Ex.all_fail) "s1" 0 (Some "api") empty_db = (db1, HInfo info) /\
    si_session_id info = "s1" /\
    get_session "s1" db1 =
      Some {| row_session_id := "s1"; row_scenario_id := si_scenario_id info;
              row_status := "started" |} /\
    get_session_responses "s1" (fst (handle_response (Ex.env Ex.all_fail) "s1" "answer A" db1)) =
      [{| resp_session_id := "s1"; resp_question_id := q_id (si_current_question info);
          resp_response_text := "answer A" |}].
Proof.
  eexists _, _. split; [vm_compute; reflexivity|].
  apply (first_answer_goes_to_the_opening_question (Ex.env Ex.all_fail) "s1" 0 (Some "api")
           empty_db).
  - reflexivity.
  - reflexivity.
  - vm_compute. reflexivity.
  - vm_compute. discriminate.
Defined.

(** X13.  A start that names a scenario which is found but has no question
    fails after the session was created: the store keeps a row for the new
    id with status started, and every later submission to that session is
    answered with an error and writes nothing. *)
Theorem failed_start_leaves_a_dead_session (env : Env) (new_id : string) (rnd : nat)
    (i : string) (sc : Scenario) (db : Db) :
  i <> "" ->
  get_scenario_by_id (env_scenarios env) i = Some sc ->
  default [] (sc_questions sc) = [] ->
  get_session new_id db = None ->
  get_session_responses new_id db = [] ->
  let db1 := create_session new_id i db in
  start_interview_session env new_id rnd (Some i) db =
    (db1, HError "Failed to start interview") /\
  session_status new_id db1 = Some "started" /\
  forall response,
    handle_response env new_id response db1 = (db1, HError "Failed to process response").
Proof.
  intros Hi Hfind Hempty Hfresh Hnone db1.
  pose proof (get_scenario_by_id_in _ _ _ Hfind) as [_ Hid].
  pose proof (get_session_create_fresh new_id i db Hfresh) as Hrow.
  fold db1 in Hrow.
  split; [|split].
  - unfold start_interview_session.
    rewrite bool_decide_eq_false_2, Hfind by exact Hi. rewrite Hid. fold db1.
    unfold start_interview. rewrite bool_decide_eq_false_2, Hfind by exact Hi.
    destruct (sc_questions sc) as [[|q qs]|]; try reflexivity. discriminate.
  - unfold session_status. rewrite Hrow. reflexivity.
  - intros response. unfold handle_response. rewrite Hrow. simpl row_scenario_id.
    rewrite Hfind.
    destruct (sc_questions sc) as [[|q qs]|]; try reflexivity; [|discriminate].
    cbv zeta.
    assert (get_session_responses new_id db1 = []) as -> by exact Hnone.
    reflexivity.
Qed.

Lemma failed_start_leaves_a_dead_session_witness :
  let empty := {| sc_id := "empty"; sc_title := Some "Empty"; sc_description := Some "None";
                  sc_questions := Some [] |} in
  let env := {| env_scenarios := [Ex.two; empty]; env_engine := Ex.picks "q2";
                env_run_interview := fun _ => Some (Some "summary");
                env_eval := Ex.eval_ok; env_export_ok := true |} in
  let db1 := create_session "s1" "empty" empty_db in
  start_interview_session env "s1" 0 (Some "empty") empty_db =
    (db1, HError "Failed to start interview") /\
  session_status "s1" db1 = Some "started" /\
  forall response,
    handle_response env "s1" response db1 = (db1, HError "Failed to process response").
Proof.
  intros empty env.
  apply (failed_start_leaves_a_dead_session env "s1" 0 "empty" empty empty_db).
  - discriminate.
  - reflexivity.
  - reflexivity.
  - reflexivity.
  - reflexivity.
Defined.

Lemma evaluations_store_detailed sid detailed db :
  evaluations (store_detailed sid detailed db) =
    evaluations db ++
    map (fun item => {| eval_session_id := sid; eval_type := "detailed";
                        eval_data := DetailedData (fst item) (snd item) |}) detailed.
Proof.
  unfold store_detailed. revert db.
  induction detailed as [|item detailed IH]; intros db; simpl.
  - rewrite app_nil_r. reflexivity.
  - rewrite IH. simpl. rewrite <- app_assoc. reflexivity.
Qed.

Lemma filter_own_evaluations sid (rows : list EvaluationRow) :
  Forall (fun r => eval_session_id r = sid) rows ->
  filter (fun r => eval_session_id r = sid) rows = rows.
Proof.
  induction 1 as [|r rows Hr _ IH]; [reflexivity|].
  rewrite filter_cons. destruct (decide (eval_session_id r = sid)); [|contradiction].
  rewrite IH. reflexivity.
Qed.

(** The tables after the writes of a successful completion. *)
Lemma tables_after_report sid report db :
  let db4 := store_report sid report
               (store_evaluation sid "overall" (OverallData (rep_overall_evaluation report))
                  (store_detailed sid (rep_detailed_evaluations report) db)) in
  get_session sid db4 = get_session sid db /\
  get_session_responses sid db4 = get_session_responses sid db /\
  get_session_evaluations sid db4 =
    get_session_evaluations sid db ++
    map (fun item => {| eval_session_id := sid; eval_type := "detailed";
                        eval_data := DetailedData (fst item) (snd item) |})
      (rep_detailed_evaluations report) ++
    [{| eval_session_id := sid; eval_type := "overall";
        eval_data := OverallData (rep_overall_evaluation report) |}] /\
  get_session_report sid db4 = Some {| report_session_id := sid; report_data := report |}.
Proof.
  destruct (sessions_store_detailed sid (rep_detailed_evaluations report) db)
    as (Hs & Hr & Hp & _).
  cbv zeta. repeat split.
  - unfold get_session. simpl. rewrite Hs. reflexivity.
  - unfold get_session_responses. simpl. rewrite Hr. reflexivity.
  - unfold get_session_evaluations. simpl. rewrite evaluations_store_detailed.
    rewrite <- app_assoc, filter_app. f_equal.
    apply filter_own_evaluations. apply Forall_app. split.
    + apply Forall_forall. intros r Hin. apply list_elem_of_In, in_map_iff in Hin as (item & <- & _).
      reflexivity.
    + repeat constructor.
  - unfold get_session_report, get_session_reports. simpl. rewrite Hp.
    rewrite filter_app, filter_cons. simpl.
    destruct (decide (sid = sid)); [|congruence].
    rewrite filter_nil. apply last_snoc.
Qed.



(* ===================================================================== *)
(** ** The report compiler *)
(* ===================================================================== *)

Lemma dict_set_fresh {V} (k : string) (v : V) (d : list (string * V)) :
  k ∉ map fst d -> dict_set k v d = d ++ [(k, v)].
Proof.
  induction d as [|[k' v'] d IH]; simpl; [reflexivity|].
  intros Hk. apply not_elem_of_cons in Hk as [Hne Hk].
  rewrite bool_decide_eq_false_2 by congruence. rewrite IH by exact Hk. reflexivity.
Qed.

Lemma evaluate_responses_Some eo qs items acc d :
  NoDup (map fst acc ++ map fst items) ->
  evaluate_responses eo qs items acc = Some d ->
  exists new,
    d = acc ++ new /\
    Forall2 (fun item entry =>
               fst entry = fst item /\
               detailed_eval_chain eo (question_text qs (fst item)) (snd item) =
                 Some (snd entry))
      (filter (fun item => question_text qs (fst item) <> "") items) new.
Proof.
  revert acc. induction items as [|[k r] items IH]; intros acc Hnd H; simpl in H.
  - injection H as <-. exists []. rewrite app_nil_r. split; [reflexivity|constructor].
  - simpl in Hnd. rewrite filter_cons. simpl.
    destruct (decide (question_text qs k <> "")) as [Htext|Htext].
    + rewrite bool_decide_eq_false_2 in H by exact Htext.
      destruct (detailed_eval_chain eo (question_text qs k) r) as [e|] eqn:He; [|discriminate].
      assert (k ∉ map fst acc) as Hfresh.
      { apply NoDup_app in Hnd as (_ & Hdisj & _). intros Hin.
        apply (Hdisj k Hin). apply list_elem_of_here. }
      rewrite dict_set_fresh in H by exact Hfresh.
      destruct (IH (acc ++ [(k, e)])) as (new & -> & Hall); [|exact H|].
      { rewrite map_app. simpl. rewrite <- app_assoc. exact Hnd. }
      exists ((k, e) :: new). rewrite <- app_assoc. split; [reflexivity|].
      constructor; [split; [reflexivity|exact He]|exact Hall].
    + assert (question_text qs k = "") as Hempty
        by (destruct (decide (question_text qs k = "")); [assumption|contradiction]).
      rewrite bool_decide_eq_true_2 in H by exact Hempty.
      apply IH; [|exact H].
      apply NoDup_app in Hnd as (Ha & Hdisj & Hi). apply NoDup_app.
      apply NoDup_cons in Hi as [_ Hi]. repeat split; [exact Ha| |exact Hi].
      intros x Hx Hx'. apply (Hdisj x Hx). apply list_elem_of_further, Hx'.
Qed.

Lemma evaluate_responses_None eo qs items acc :
  evaluate_responses eo qs items acc = None <->
  Exists (fun item => question_text qs (fst item) <> "" /\
                      detailed_eval_chain eo (question_text qs (fst item)) (snd item) = None)
    items.
Proof.
  revert acc. induction items as [|[k r] items IH]; intros acc; simpl.
  - split; [discriminate|]. intros H. inversion H.
  - destruct (bool_decide (question_text qs k = "")) eqn:Htext.
    + apply bool_decide_eq_true_1 in Htext. rewrite IH. split.
      * intros H. apply Exists_cons_tl, H.
      * intros H. apply Exists_cons in H as [[Hne _]|H]; [contradiction|exact H].
    + apply bool_decide_eq_false_1 in Htext.
      destruct (detailed_eval_chain eo (question_text qs k) r) as [e|] eqn:He.
      * rewrite IH. split.
        -- intros H. apply Exists_cons_tl, H.
        -- intros H. apply Exists_cons in H as [[_ Hno]|H]; [simpl in Hno; congruence|exact H].
      * split; [|reflexivity]. intros _. apply Exists_cons_hd. simpl. auto.
Qed.

(** X15.  The report compiled for a dict of responses.  When it is
    produced, its detailed evaluations are, in the order of the dict, those
    of the responses whose question id belongs to a question of the scenario
    with a non-empty text, each the answer of the detailed chain for that
    question and response; every other response is left out without an
    error; the overall evaluation is the answer of the overall chain on
    these evaluations.  It is not produced exactly when the detailed chain
    fails on one of the responses that are kept, or the overall chain
    fails. *)
Theorem report_covers_known_questions (eo : EvalOracle) (sc : Scenario)
    (responses : list (string * string)) (final_summary : string) :
  NoDup (map fst responses) ->
  let qs := default [] (sc_questions sc) in
  let kept := filter (fun item => question_text qs (fst item) <> "") responses in
  let title := default "" (sc_title sc) in
  let descr := default "" (sc_description sc) in
  match generate_evaluation_report eo sc responses final_summary with
  | Some report =>
      Forall2 (fun item entry =>
                 fst entry = fst item /\
                 detailed_eval_chain eo (question_text qs (fst item)) (snd item) =
                   Some (snd entry))
        kept (rep_detailed_evaluations report) /\
      overall_eval_chain eo title descr final_summary
        (map snd (rep_detailed_evaluations report)) = Some (rep_overall_evaluation report) /\
      rep_final_summary report = final_summary /\
      rep_scenario_id report = sc_id sc
  | None =>
      Exists (fun item => detailed_eval_chain eo (question_text qs (fst item)) (snd item) = None)
        kept \/
      exists detailed,
        evaluate_responses eo qs responses [] = Some detailed /\
        overall_eval_chain eo title descr final_summary (map snd detailed) = None
  end.
Proof.
  intros Hnd qs kept title descr. unfold generate_evaluation_report. fold qs title descr.
  destruct (evaluate_responses eo qs responses []) as [detailed|] eqn:Hd; simpl.
  - destruct (overall_eval_chain eo title descr final_summary (map snd detailed))
      as [overall|] eqn:Ho; simpl; [|right; eauto].
    destruct (evaluate_responses_Some eo qs responses [] detailed Hnd Hd) as (new & -> & Hall).
    auto.
  - left. apply evaluate_responses_None in Hd.
    apply Exists_exists in Hd as (item & Hin & Hne & Hno).
    apply Exists_exists. exists item. split; [|exact Hno].
    apply list_elem_of_filter. split; [exact Hne|exact Hin].
Qed.

Lemma report_covers_known_questions_witness :
  let responses := [("q1", "answer A"); ("zz", "answer Z"); ("q2", "answer B")] in
  let qs := default [] (sc_questions Ex.two) in
  let kept := filter (fun item => question_text qs (fst item) <> "") responses in
  let title := default "" (sc_title Ex.two) in
  let descr := default "" (sc_description Ex.two) in
  match generate_evaluation_report Ex.eval_ok Ex.two responses "summary" with
  | Some report =>
      Forall2 (fun item entry =>
                 fst entry = fst item /\
                 detailed_eval_chain Ex.eval_ok (question_text qs (fst item)) (snd item) =
                   Some (snd entry))
        kept (rep_detailed_evaluations report) /\
      overall_eval_chain Ex.eval_ok title descr "summary"
        (map snd (rep_detailed_evaluations report)) = Some (rep_overall_evaluation report) /\
      rep_final_summary report = "summary" /\
      rep_scenario_id report = sc_id Ex.two
  | None =>
      Exists (fun item =>
                detailed_eval_chain Ex.eval_ok (question_text qs (fst item)) (snd item) = None)
        kept \/
      exists detailed,
        evaluate_responses Ex.eval_ok qs responses [] = Some detailed /\
        overall_eval_chain Ex.eval_ok title descr "summary" (map snd detailed) = None
  end.
Proof.
  apply (report_covers_known_questions Ex.eval_ok Ex.two
           [("q1", "answer A"); ("zz", "answer Z"); ("q2", "answer B")] "summary").
  apply NoDup_ListNoDup. repeat constructor; simpl; intuition discriminate.
Defined.

(* ===================================================================== *)
(** ** An interview run from start to finish *)
(* ===================================================================== *)

Lemma generate_evaluation_report_works env sc responses final_summary :
  report_always_works env ->
  is_Some (generate_evaluation_report (env_eval env) sc responses final_summary).
Proof.
  intros (_ & Hdetailed & Hoverall & _). unfold generate_evaluation_report.
  destruct (evaluate_responses _ _ responses []) as [detailed|] eqn:Hd; simpl.
  - destruct (Hoverall (default "" (sc_title sc)) (default "" (sc_description sc))
                final_summary (map snd detailed)) as [overall ->].
    simpl. eauto.
  - apply evaluate_responses_None in Hd.
    apply Exists_exists in Hd as (item & _ & _ & Hno).
    destruct (Hdetailed (question_text (default [] (sc_questions sc)) (fst item)) (snd item))
      as [e He].
    congruence.
Qed.

Lemma complete_interview_works env sid sc rs db row :
  report_always_works env ->
  get_session sid db = Some row ->
  exists db' report,
    complete_interview env sid sc rs db = (db', HCompleted sid report) /\
    session_status sid db' = Some "completed" /\
    get_session_report sid db' = Some {| report_session_id := sid; report_data := report |}.
Proof.
  intros Hworks Hrow. pose proof Hworks as (Hrun & _ & _ & Hexport).
  unfold complete_interview.
  destruct (Hrun (map snd rs)) as [result ->].
  destruct (generate_evaluation_report_works env sc
              (fold_left (fun d r => dict_set (fst r) (snd r) d) rs [])
              (default "" result) Hworks) as [report ->].
  rewrite Hexport. cbv zeta.
  destruct (tables_after_report sid report (update_session_status sid "completed" db))
    as (Hs & _ & _ & Hp).
  cbv zeta in Hs, Hp.
  eexists _, report. split; [reflexivity|]. split; [|exact Hp].
  unfold session_status. rewrite Hs.
  rewrite (get_session_update_same sid "completed" db row Hrow). reflexivity.
Qed.

(** A submission to a session of a well-formed scenario is never answered
    with an error when the report can be compiled: it stores the response
    and returns the next state, which needs fewer stored responses than
    questions, or it completes the interview. *)
Lemma handle_response_live env sid response db row sc qs title descr :
  report_always_works env ->
  get_session sid db = Some row ->
  get_scenario_by_id (env_scenarios env) (row_scenario_id row) = Some sc ->
  sc_questions sc = Some qs -> qs <> [] ->
  sc_title sc = Some title -> sc_description sc = Some descr ->
  (exists cq info,
     handle_response env sid response db =
       (store_response sid (q_id cq) response db, HInfo info) /\
     List.length (get_session_responses sid db) < List.length qs /\
     (never_clarifies (env_engine env) ->
      S (List.length (get_session_responses sid db)) < List.length qs)) \/
  (exists db' report,
     handle_response env sid response db = (db', HCompleted sid report) /\
     session_status sid db' = Some "completed" /\
     get_session_report sid db' = Some {| report_session_id := sid; report_data := report |}).
Proof.
  intros Hworks Hrow Hsc Hqs Hne Ht Hd. unfold handle_response.
  rewrite Hrow, Hsc, Hqs. cbv zeta.
  destruct (handler_current_question qs _) as [[cq|]|e] eqn:Hcur.
  - match goal with |- context [process_response _ _ (new_world ?s)] => set (session := s) end.
    destruct (turn_outcome (env_engine env) (new_world session) response sc qs
                (map resp_question_id (get_session_responses sid db))
                (rebuilt_history qs (get_session_responses sid db) ++
                 [AIMessage (q_question cq)])
                ∅ cq) as (w' & asked' & h' & cur & Hproc & Ha & Hh & Hc & Hlen & _ & _ & Hquiet).
    { unfold well_formed; simpl; auto 10. }
    rewrite Hproc. rewrite length_map in Hlen, Hquiet.
    assert (get_session sid (store_response sid (q_id cq) response db) = Some row) as Hrow'
      by exact Hrow.
    destruct (default false (interview_complete (w_session w'))) eqn:Hdone.
    { right. eapply complete_interview_works; eassumption. }
    rewrite Ht, Hd, Hc, Hh, Ha. simpl.
    destruct (bool_decide (List.length qs <= List.length asked')) eqn:Hfull.
    { right. eapply complete_interview_works; eassumption. }
    apply bool_decide_eq_false_1 in Hfull.
    left. eexists cq, _. split; [reflexivity|]. split; [lia|].
    intros Hnever. destruct (Hquiet Hnever) as [Hcomplete|Hgrow]; [|lia].
    rewrite Hcomplete in Hdone. discriminate.
  - right. eapply complete_interview_works; eassumption.
  - exfalso. unfold handler_current_question in Hcur.
    destruct (map resp_question_id _); [|discriminate].
    destruct qs; [congruence|discriminate].
Qed.

Lemma submit_responses_live env sid row sc qs title descr :
  report_always_works env ->
  get_scenario_by_id (env_scenarios env) (row_scenario_id row) = Some sc ->
  sc_questions sc = Some qs -> qs <> [] ->
  sc_title sc = Some title -> sc_description sc = Some descr ->
  forall rs db,
    get_session sid db = Some row ->
    let stored := List.length (get_session_responses sid db) in
    (stored <= List.length qs /\ List.length qs < List.length rs + stored) \/
    (never_clarifies (env_engine env) /\
     stored < List.length qs /\ List.length qs <= List.length rs + stored) ->
    exists db' report,
      submit_responses env sid rs db = (db', Some (HCompleted sid report)) /\
      session_status sid db' = Some "completed" /\
      get_session_report sid db' = Some {| report_session_id := sid; report_data := report |}.
Proof.
  intros Hworks Hsc Hqs Hne Ht Hd rs.
  induction rs as [|response rs IH]; intros db Hrow stored Hbound.
  { simpl in Hbound. lia. }
  simpl.
  destruct (handle_response_live env sid response db row sc qs title descr
              Hworks Hrow Hsc Hqs Hne Ht Hd)
    as [(cq & info & -> & Hlt & Hquiet)|(db' & report & -> & Hstatus & Hreport)].
  - apply IH; [exact Hrow|].
    assert (List.length (get_session_responses sid (store_response sid (q_id cq) response db)) =
            S stored) as ->.
    { unfold get_session_responses, store_response. simpl.
      rewrite filter_app, filter_cons. simpl.
      destruct (decide (sid = sid)); [|congruence].
      rewrite length_app. simpl. subst stored. unfold get_session_responses. lia. }
    subst stored. simpl in Hbound.
    destruct Hbound as [[? ?]|(Hnever & ? & ?)]; [left; lia|].
    right. specialize (Hquiet Hnever). split; [exact Hnever|]. lia.
  - eauto.
Qed.

(** X16.  An interview run from start to finish, on its own (no other task
    takes or gives back a permit of the semaphore while it runs).  With
    fewer than two permits left the run never returns and writes nothing:
    it holds one permit and the calls it makes wait for a second one.  With
    two or more left, when the report can always be compiled and exported,
    a run under a fresh session id on a scenario that is found and has a
    title, a description and at least one question completes, whatever the
    engine's chains answer, as soon as it is given more responses than the
    scenario has questions; when the clarification chain never asks a
    follow-up, as many responses as questions are enough.  The run returns
    the completion with its report, the session is left with status
    completed and that report is the session's report. *)
Theorem enough_responses_complete_the_run (env : Env) (free : nat) (new_id : string)
    (rnd : nat) (i : string) (sc : Scenario) (qs : list Question) (title descr : string)
    (rs : list string) (db : Db) :
  report_always_works env ->
  i <> "" ->
  get_scenario_by_id (env_scenarios env) i = Some sc ->
  sc_questions sc = Some qs -> qs <> [] ->
  sc_title sc = Some title -> sc_description sc = Some descr ->
  get_session new_id db = None ->
  get_session_responses new_id db = [] ->
  List.length qs < List.length rs \/
  (never_clarifies (env_engine env) /\ List.length qs <= List.length rs) ->
  (free < 2 -> run_single_interview env free new_id rnd i rs db = (db, Blocked)) /\
  (2 <= free ->
   exists db' report,
     run_single_interview env free new_id rnd i rs db =
       (db', Finished (HCompleted new_id report)) /\
     session_status new_id db' = Some "completed" /\
     get_session_report new_id db' =
       Some {| report_session_id := new_id; report_data := report |}).
Proof.
  intros Hworks Hi Hfind Hqs Hne Ht Hd Hfresh Hnone Hbound.
  split.
  { intros Hfree. unfold run_single_interview.
    destruct free as [|[|free]]; [reflexivity|reflexivity|lia]. }
  intros Hfree. destruct free as [|[|free]]; [lia|lia|].
  pose proof (get_scenario_by_id_in _ _ _ Hfind) as [_ Hid].
  pose proof (get_session_create_fresh new_id i db Hfresh) as Hrow.
  unfold run_single_interview, acquire, start_interview_session.
  rewrite bool_decide_eq_false_2, Hfind by exact Hi. rewrite Hid.
  unfold start_interview. rewrite bool_decide_eq_false_2, Hfind, Hqs by exact Hi.
  destruct qs as [|first rest]; [congruence|].
  rewrite Ht, Hd. cbn [current_question conversation_history si_session_id].
  destruct (submit_responses_live env new_id
              {| row_session_id := new_id; row_scenario_id := i; row_status := "started" |}
              sc (first :: rest) title descr
              Hworks Hfind Hqs Hne Ht Hd rs (create_session new_id i db) Hrow)
    as (db' & report & -> & Hstatus & Hreport).
  { assert (get_session_responses new_id (create_session new_id i db) = []) as -> by exact Hnone.
    simpl. simpl in Hbound. destruct Hbound as [?|[? ?]]; [left|right; split; [assumption|]]; lia. }
  eauto.
Qed.

Lemma enough_responses_complete_the_run_witness :
  (1 < 2 ->
   run_single_interview (Ex.env Ex.clarifies) 1 "s1" 0 "api"
     ["answer A"; "answer B"; "answer C"] empty_db = (empty_db, Blocked)) /\
  (2 <= 10 ->
   exists db' report,
     run_single_interview (Ex.env Ex.clarifies) 10 "s1" 0 "api"
       ["answer A"; "answer B"; "answer C"] empty_db =
       (db', Finished (HCompleted "s1" report)) /\
     session_status "s1" db' = Some "completed" /\
     get_session_report "s1" db' = Some {| report_session_id := "s1"; report_data := report |}).
Proof.
  assert (report_always_works (Ex.env Ex.clarifies)) as Hworks
    by (repeat split; simpl; eauto).
  split.
  - apply (enough_responses_complete_the_run (Ex.env Ex.clarifies) 1 "s1" 0 "api" Ex.two
             [Ex.q1; Ex.q2] "API" "REST");
      [exact Hworks|discriminate|reflexivity|reflexivity|discriminate|reflexivity|
       reflexivity|reflexivity|reflexivity|left; simpl; lia].
  - apply (enough_responses_complete_the_run (Ex.env Ex.clarifies) 10 "s1" 0 "api" Ex.two
             [Ex.q1; Ex.q2] "API" "REST");
      [exact Hworks|discriminate|reflexivity|reflexivity|discriminate|reflexivity|
       reflexivity|reflexivity|reflexivity|left; simpl; lia].
Defined.

(* ===================================================================== *)
(** ** The summary of the evaluation step *)
(* ===================================================================== *)

(** X17.  The evaluation step never gets a summary: for every history,
    every model and every budget, [summarize_interview_history] raises
    without a chain call (the [ValueError] of empty contents, or the
    [TypeError] of the [async for]), and the summary of
    [run_evaluation_tools] is the placeholder. *)
Theorem evaluation_summary_is_the_placeholder (llm : Summarizer.Llm) (chunk_size : nat)
    (history : list Message) :
  let run := Summarizer.summarize_interview_history llm chunk_size
               (Summarizer.interview_contents history) in
  Summarizer.run_calls run = [] /\
  (exists e, Summarizer.run_result run = inl e) /\
  Summarizer.run_evaluation_tools_summary llm chunk_size history =
    "Error generating summary.".
Proof.
  cbv zeta. unfold Summarizer.run_evaluation_tools_summary.
  destruct (Summarizer.interview_contents history) as [|content contents].
  - simpl. split; [reflexivity|]. split; [|reflexivity]. eexists. reflexivity.
  - simpl. split; [reflexivity|]. split; [|reflexivity]. eexists. reflexivity.
Qed.

(* ===================================================================== *)
(** ** The loaded scenarios *)
(* ===================================================================== *)

Lemma get_scenario_by_id_app scenarios more i :
  get_scenario_by_id (scenarios ++ more) i =
    match get_scenario_by_id scenarios i with
    | Some sc => Some sc
    | None => get_scenario_by_id more i
    end.
Proof.
  unfold get_scenario_by_id. induction scenarios as [|s scenarios IH]; simpl; [reflexivity|].
  destruct (bool_decide (sc_id s = i)); [reflexivity|exact IH].
Qed.

Lemma no_scenario_with_id scenarios i :
  existsb (fun s => bool_decide (sc_id s = i)) scenarios = false ->
  get_scenario_by_id scenarios i = None /\ i ∉ map sc_id scenarios.
Proof.
  unfold get_scenario_by_id. induction scenarios as [|s scenarios IH]; simpl.
  - intros _. split; [reflexivity|apply not_elem_of_nil].
  - destruct (bool_decide (sc_id s = i)) eqn:E; [discriminate|]. simpl.
    intros H. destruct (IH H) as [Hfind Hnot]. split; [exact Hfind|].
    apply bool_decide_eq_false_1 in E. apply not_elem_of_cons. split; [congruence|exact Hnot].
Qed.

(** X18.  [add_scenario] keeps the ids of the loaded scenarios pairwise
    distinct and never removes or hides a scenario: what was found under an
    id is still found.  A scenario that lacks a title, a description or its
    questions, or whose id is already loaded, is not added: the loaded list
    is unchanged and the answer is [False].  Any other scenario is appended
    and then found under its id, also when the file could not be written:
    the function then answers [False] although the scenario is loaded. *)
Theorem add_scenario_keeps_ids_distinct (save_ok : bool) (sc : Scenario)
    (scenarios : list Scenario) :
  NoDup (map sc_id scenarios) ->
  let result := add_scenario save_ok sc scenarios in
  NoDup (map sc_id (fst result)) /\
  (forall i found, get_scenario_by_id scenarios i = Some found ->
                   get_scenario_by_id (fst result) i = Some found) /\
  (snd result = true ->
   get_scenario_by_id scenarios (sc_id sc) = None /\
   get_scenario_by_id (fst result) (sc_id sc) = Some sc) /\
  (sc_title sc = None \/ sc_description sc = None \/ sc_questions sc = None \/
   get_scenario_by_id scenarios (sc_id sc) <> None ->
   result = (scenarios, false)) /\
  (is_Some (sc_title sc) -> is_Some (sc_description sc) -> is_Some (sc_questions sc) ->
   get_scenario_by_id scenarios (sc_id sc) = None ->
   fst result = scenarios ++ [sc] /\ snd result = save_ok /\
   get_scenario_by_id (fst result) (sc_id sc) = Some sc).
Proof.
  intros Hnd. cbv zeta.
  assert (get_scenario_by_id [sc] (sc_id sc) = Some sc) as Hown.
  { unfold get_scenario_by_id. simpl. rewrite bool_decide_eq_true_2 by reflexivity. reflexivity. }
  unfold add_scenario.
  destruct (existsb _ scenarios) eqn:Hdup.
  - assert (get_scenario_by_id scenarios (sc_id sc) <> None) as Hfound.
    { apply existsb_exists in Hdup as (s & Hin & Hid). apply bool_decide_eq_true_1 in Hid.
      unfold get_scenario_by_id. intros Hnone.
      pose proof (find_none _ _ Hnone s Hin) as Hno. simpl in Hno.
      rewrite bool_decide_eq_true_2 in Hno by exact Hid. discriminate. }
    destruct (sc_title sc), (sc_description sc), (sc_questions sc); simpl;
      (split; [exact Hnd|]); (split; [auto|]); (split; [discriminate|]);
      (split; [reflexivity|]); intros; contradiction.
  - destruct (no_scenario_with_id scenarios (sc_id sc) Hdup) as [Hnone Hfresh].
    destruct (sc_title sc) as [t|], (sc_description sc) as [d|], (sc_questions sc) as [qs|];
      simpl;
      try (split; [exact Hnd|]; split; [auto|]; split; [discriminate|];
           split; [reflexivity|]; intros [? Ht] [? Hd] [? Hq]; discriminate).
    split; [|split; [|split; [|split]]].
    + rewrite map_app. simpl. apply NoDup_app. repeat split; [exact Hnd| |apply NoDup_singleton].
      intros i Hi Hi'. apply list_elem_of_singleton in Hi' as ->. contradiction.
    + intros i found Hfind. rewrite get_scenario_by_id_app, Hfind. reflexivity.
    + intros _. split; [exact Hnone|]. rewrite get_scenario_by_id_app, Hnone. exact Hown.
    + intros [H|[H|[H|H]]]; try discriminate. contradiction.
    + intros _ _ _ _. repeat split. rewrite get_scenario_by_id_app, Hnone. exact Hown.
Qed.

Lemma add_scenario_keeps_ids_distinct_witness :
  let result := add_scenario false Ex.two [Ex.three] in
  NoDup (map sc_id (fst result)) /\
  (forall i found, get_scenario_by_id [Ex.three] i = Some found ->
                   get_scenario_by_id (fst result) i = Some found) /\
  (snd result = true ->
   get_scenario_by_id [Ex.three] (sc_id Ex.two) = None /\
   get_scenario_by_id (fst result) (sc_id Ex.two) = Some Ex.two) /\
  (sc_title Ex.two = None \/ sc_description Ex.two = None \/ sc_questions Ex.two = None \/
   get_scenario_by_id [Ex.three] (sc_id Ex.two) <> None ->
   result = ([Ex.three], false)) /\
  (is_Some (sc_title Ex.two) -> is_Some (sc_description Ex.two) ->
   is_Some (sc_questions Ex.two) ->
   get_scenario_by_id [Ex.three] (sc_id Ex.two) = None ->
   fst result = [Ex.three] ++ [Ex.two] /\ snd result = false /\
   get_scenario_by_id (fst result) (sc_id Ex.two) = Some Ex.two).
Proof.
  apply (add_scenario_keeps_ids_distinct false Ex.two [Ex.three]).
  simpl. apply NoDup_singleton.
Defined.

(* ===================================================================== *)
(** ** Listing the sessions *)
(* ===================================================================== *)



(* ===================================================================== *)
(** ** The store only grows *)
(* ===================================================================== *)

Lemma grows_refl db : grows db db.
Proof. unfold grows. repeat split; reflexivity. Qed.

Lemma grows_trans db1 db2 db3 : grows db1 db2 -> grows db2 db3 -> grows db1 db3.
Proof.
  intros (H1 & H2 & H3 & H4 & H5) (K1 & K2 & K3 & K4 & K5).
  unfold grows. repeat split; etrans; eassumption.
Qed.

Lemma grows_create_session new_id scenario_id db :
  grows db (create_session new_id scenario_id db).
Proof.
  unfold grows, create_session. simpl. rewrite map_app.
  repeat split; try reflexivity; apply prefix_app_r; reflexivity.
Qed.

Lemma grows_update_session_status sid status db :
  grows db (update_session_status sid status db).
Proof.
  unfold grows, update_session_status. simpl.
  repeat split; try reflexivity; [|apply prefix_app_r; reflexivity].
  rewrite map_map.
  erewrite map_ext; [reflexivity|].
  intros r. simpl. destruct (bool_decide (row_session_id r = sid)); reflexivity.
Qed.

Lemma grows_store_response sid qid text db : grows db (store_response sid qid text db).
Proof.
  unfold grows, store_response. simpl.
  repeat split; try reflexivity; apply prefix_app_r; reflexivity.
Qed.

Lemma grows_store_evaluation sid ty data db : grows db (store_evaluation sid ty data db).
Proof.
  unfold grows, store_evaluation. simpl.
  repeat split; try reflexivity; apply prefix_app_r; reflexivity.
Qed.

Lemma grows_store_report sid report db : grows db (store_report sid report db).
Proof.
  unfold grows, store_report. simpl.
  repeat split; try reflexivity; apply prefix_app_r; reflexivity.
Qed.

Lemma grows_store_detailed sid detailed db : grows db (store_detailed sid detailed db).
Proof.
  unfold store_detailed. revert db.
  induction detailed as [|item detailed IH]; intros db; simpl; [apply grows_refl|].
  eapply grows_trans; [apply grows_store_evaluation|apply IH].
Qed.

Lemma grows_complete_interview env sid sc rs db :
  grows db (fst (complete_interview env sid sc rs db)).
Proof.
  assert (forall db1, grows db db1 -> grows db (update_session_status sid "error" db1)) as Hfail.
  { intros db1 H. eapply grows_trans; [exact H|apply grows_update_session_status]. }
  pose proof (grows_update_session_status sid "completed" db) as H1.
  unfold complete_interview.
  destruct (env_run_interview env (map snd rs)) as [result|]; simpl; [|auto].
  destruct (generate_evaluation_report _ _ _ _) as [report|]; simpl; [|auto].
  assert (grows db
            (store_report sid report
               (store_evaluation sid "overall" (OverallData (rep_overall_evaluation report))
                  (store_detailed sid (rep_detailed_evaluations report)
                     (update_session_status sid "completed" db))))) as H4.
  { eapply grows_trans; [exact H1|].
    eapply grows_trans; [apply grows_store_detailed|].
    eapply grows_trans; [apply grows_store_evaluation|apply grows_store_report]. }
  destruct (env_export_ok env); simpl; auto.
Qed.

Lemma grows_handle_response env sid response db :
  grows db (fst (handle_response env sid response db)).
Proof.
  unfold handle_response.
  destruct (get_session sid db) as [row|]; [|apply grows_refl].
  destruct (get_scenario_by_id _ _) as [sc|]; [|apply grows_refl].
  destruct (sc_questions sc) as [qs|]; [|apply grows_refl].
  cbv zeta.
  destruct (handler_current_question qs _) as [[cq|]|e]; [| |apply grows_refl].
  2:{ apply grows_complete_interview. }
  destruct (process_response _ _ _) as [w' [updated|e]]; [|apply grows_refl].
  pose proof (grows_store_response sid (q_id cq) response db) as Hstore.
  assert (forall rs, grows db (fst (complete_interview env sid sc rs
                                      (store_response sid (q_id cq) response db)))) as Hdone.
  { intros rs. eapply grows_trans; [exact Hstore|apply grows_complete_interview]. }
  destruct (default false (interview_complete updated)); [apply Hdone|].
  destruct (sc_title sc), (sc_description sc), (current_question updated),
    (conversation_history updated); try exact Hstore.
  destruct (bool_decide _); [apply Hdone|exact Hstore].
Qed.

Lemma grows_start_interview_session env new_id rnd scenario_id db :
  grows db (fst (start_interview_session env new_id rnd scenario_id db)).
Proof.
  unfold start_interview_session.
  match goal with
  | |- context [match ?sel with Ok _ => _ | Raise _ => _ end] =>
      destruct sel as [[sc|]|e]; try apply grows_refl
  end.
  destruct (start_interview _ _ _) as [session|e]; [|apply grows_create_session].
  destruct (sc_title sc), (sc_description sc), (current_question session),
    (conversation_history session); apply grows_create_session.
Qed.

Lemma grows_submit_responses env sid rs db :
  grows db (fst (submit_responses env sid rs db)).
Proof.
  revert db. induction rs as [|response rs IH]; intros db; simpl; [apply grows_refl|].
  pose proof (grows_handle_response env sid response db) as Hstep.
  destruct (handle_response env sid response db) as [db' [message|info|sid' report]];
    simpl in *; try exact Hstep.
  eapply grows_trans; [exact Hstep|apply IH].
Qed.

(** X20.  The orchestrator only adds to the store.  Whatever the chains
    answer and whether a call succeeds or fails, after a start, a
    submission, a completion or a whole run, every response, evaluation and
    report row that was stored is still there, unchanged and in the same
    order before the new ones; every session row is still there with its id
    and its scenario (only its status may differ); and every committed write
    is still in the journal. *)
Theorem orchestrator_only_adds (env : Env) (db : Db) :
  (forall new_id rnd scenario_id,
     grows db (fst (start_interview_session env new_id rnd scenario_id db))) /\
  (forall sid response, grows db (fst (handle_response env sid response db))) /\
  (forall sid sc rs, grows db (fst (complete_interview env sid sc rs db))) /\
  (forall free new_id rnd scenario_id rs,
     grows db (fst (run_single_interview env free new_id rnd scenario_id rs db))).
Proof.
  split; [intros; apply grows_start_interview_session|].
  split; [intros; apply grows_handle_response|].
  split; [intros; apply grows_complete_interview|].
  intros free new_id rnd scenario_id rs. unfold run_single_interview.
  destruct (acquire free) as [spare|]; [|apply grows_refl].
  destruct (acquire spare) as [spare'|]; [|apply grows_refl].
  pose proof (grows_start_interview_session env new_id rnd (Some scenario_id) db) as Hstart.
  destruct (start_interview_session env new_id rnd (Some scenario_id) db)
    as [db1 [message|info|sid report]]; simpl in Hstart; [exact Hstart| |].
  - pose proof (grows_submit_responses env (si_session_id info) rs db1) as Hrun.
    destruct (submit_responses env (si_session_id info) rs db1) as [db2 [result|]];
      simpl in *; eapply grows_trans; eassumption.
  - pose proof (grows_submit_responses env sid rs db1) as Hrun.
    destruct (submit_responses env sid rs db1) as [db2 [result|]];
      simpl in *; eapply grows_trans; eassumption.
Qed.

(* ===================================================================== *)
(** ** Identifiers the chain cannot name *)
(* ===================================================================== *)

Lemma no_comma_cons c s :
  str_contains "," (String c s) = false <-> c <> ","%char /\ str_contains "," s = false.
Proof.
  simpl. destruct (decide (","%char = c)) as [<-|Hne]; simpl.
  - split; [discriminate|]. intros [H _]. congruence.
  - split; [intros H; split; [congruence|exact H]|intros [_ H]; exact H].
Qed.

Lemma lstrip_no_comma s :
  str_contains "," s = false -> str_contains "," (PyStr.lstrip s) = false.
Proof.
  induction s as [|c s IH]; [intros H; exact H|].
  intros H. simpl PyStr.lstrip. destruct (PyStr.is_space c); [|exact H].
  apply IH. apply no_comma_cons in H. tauto.
Qed.

Lemma rstrip_no_comma s :
  str_contains "," s = false -> str_contains "," (PyStr.rstrip s) = false.
Proof.
  induction s as [|c s IH]; [intros H; exact H|].
  intros H. apply no_comma_cons in H as [Hc Hs]. specialize (IH Hs).
  simpl PyStr.rstrip. destruct (PyStr.rstrip s) as [|c' r].
  - destruct (PyStr.is_space c); [reflexivity|].
    apply no_comma_cons. split; [exact Hc|reflexivity].
  - apply no_comma_cons. split; [exact Hc|exact IH].
Qed.

Lemma split_head_no_comma s : str_contains "," (PyStr.split_head "," s) = false.
Proof.
  induction s as [|c s IH]; [reflexivity|].
  simpl PyStr.split_head. destruct (decide (c = ","%char)) as [->|Hne]; [reflexivity|].
  apply no_comma_cons. split; [exact Hne|exact IH].
Qed.

Lemma lstrip_head s :
  PyStr.lstrip s = EmptyString \/
  exists c t, PyStr.lstrip s = String c t /\ PyStr.is_space c = false.
Proof.
  induction s as [|c s IH]; [left; reflexivity|].
  simpl. destruct (PyStr.is_space c) eqn:Hc; [exact IH|]. right. eauto.
Qed.

Lemma rstrip_head c t :
  PyStr.is_space c = false -> exists t', PyStr.rstrip (String c t) = String c t'.
Proof.
  intros Hc. simpl. destruct (PyStr.rstrip t); [rewrite Hc|]; eauto.
Qed.

Lemma rstrip_idem s : PyStr.rstrip (PyStr.rstrip s) = PyStr.rstrip s.
Proof.
  induction s as [|c s IH]; [reflexivity|].
  simpl. destruct (PyStr.rstrip s) as [|c' r] eqn:Hr.
  - destruct (PyStr.is_space c) eqn:Hc; [reflexivity|]. simpl. rewrite Hc. reflexivity.
  - change (PyStr.rstrip (String c (String c' r)))
      with (match PyStr.rstrip (String c' r) with
            | EmptyString => if PyStr.is_space c then EmptyString else String c EmptyString
            | r' => String c r'
            end).
    rewrite IH. reflexivity.
Qed.

Lemma strip_idem s : PyStr.strip (PyStr.strip s) = PyStr.strip s.
Proof.
  unfold PyStr.strip.
  destruct (lstrip_head s) as [->|(c & t & -> & Hc)]; [reflexivity|].
  destruct (rstrip_head c t Hc) as [t' Ht']. rewrite Ht'.
  simpl PyStr.lstrip. rewrite Hc. rewrite <- Ht'. apply rstrip_idem.
Qed.

Lemma lstrip_is_ascii s : PyStr.is_ascii s = true -> PyStr.is_ascii (PyStr.lstrip s) = true.
Proof.
  induction s as [|c s IH]; [intros H; exact H|].
  intros H. simpl PyStr.lstrip. destruct (PyStr.is_space c); [|exact H].
  apply IH. simpl in H. apply andb_true_iff in H. tauto.
Qed.

Lemma rstrip_is_ascii s : PyStr.is_ascii s = true -> PyStr.is_ascii (PyStr.rstrip s) = true.
Proof.
  induction s as [|c s IH]; [intros H; exact H|].
  intros H. simpl in H. apply andb_true_iff in H as [Hc Hs]. specialize (IH Hs).
  simpl PyStr.rstrip. destruct (PyStr.rstrip s) as [|c' r].
  - destruct (PyStr.is_space c); [reflexivity|]. simpl. rewrite Hc. reflexivity.
  - change (PyStr.is_ascii (String c (String c' r)))
      with ((nat_of_ascii c <? 128)%nat && PyStr.is_ascii (String c' r)).
    rewrite Hc, IH. reflexivity.
Qed.

Lemma split_head_is_ascii sep s :
  PyStr.is_ascii s = true -> PyStr.is_ascii (PyStr.split_head sep s) = true.
Proof.
  induction s as [|c s IH]; [intros H; exact H|].
  intros H. simpl in H. apply andb_true_iff in H as [Hc Hs].
  simpl PyStr.split_head. destruct (decide (c = sep)); [reflexivity|].
  simpl. rewrite Hc, (IH Hs). reflexivity.
Qed.

Lemma remove_is_ascii old skip s :
  PyStr.is_ascii s = true -> PyStr.is_ascii (PyStr.replace_from old "" skip s) = true.
Proof.
  revert skip. induction s as [|c s IH]; intros skip H; [reflexivity|].
  simpl in H. apply andb_true_iff in H as [Hc Hs].
  simpl PyStr.replace_from. destruct skip as [|k]; [|apply IH, Hs].
  destruct (PyStr.startswith old (String c s)).
  - simpl. apply IH, Hs.
  - simpl. rewrite Hc, (IH 0 Hs). reflexivity.
Qed.

Lemma clean_id_is_clean answer :
  PyStr.is_ascii answer = true ->
  PyStr.is_ascii (clean_id answer) = true /\
  str_contains "," (clean_id answer) = false /\
  PyStr.strip (clean_id answer) = clean_id answer.
Proof.
  intros Hascii. unfold clean_id. split; [|split].
  - unfold PyStr.strip, PyStr.replace.
    apply rstrip_is_ascii, lstrip_is_ascii, split_head_is_ascii, remove_is_ascii,
      rstrip_is_ascii, lstrip_is_ascii, Hascii.
  - unfold PyStr.strip at 1. apply rstrip_no_comma, lstrip_no_comma, split_head_no_comma.
  - apply strip_idem.
Qed.

(** X21.  For an answer made of ASCII characters, the identifier extracted
    from it is made of ASCII characters, holds no comma and neither starts
    nor ends with white space.  So when at least two questions are
    available and the chain answers in ASCII, [select_next_question]
    returns the first available question or a question whose id is such an
    identifier: the chain cannot name any other question. *)
Theorem chain_names_clean_ids_only (o : Oracle) (w : World) (sc : Scenario)
    (qs : list Question) (asked : list string) (h : list Message)
    (first second : Question) (others : list Question) (q : Question) :
  (forall title descr avail hist answer,
     next_question_chain o title descr avail hist = Some answer ->
     PyStr.is_ascii answer = true) ->
  scenario (w_session w) = Some sc ->
  sc_questions sc = Some qs ->
  questions_asked (w_session w) = Some asked ->
  conversation_history (w_session w) = Some h ->
  available_questions qs asked = first :: second :: others ->
  snd (select_next_question o w) = Ok (Some q) ->
  q = first \/
  (PyStr.is_ascii (q_id q) = true /\
   str_contains "," (q_id q) = false /\
   PyStr.strip (q_id q) = q_id q).
Proof.
  intros Hanswers Hsc Hqs Hasked Hh Hav.
  rewrite (select_next_question_eq o w sc qs asked Hsc Hqs Hasked), Hav, Hh.
  cbv beta iota zeta.
  destruct (next_question_chain o _ _ _ _) as [answer|] eqn:Hans; simpl;
    intros [= <-]; [|by left].
  unfold match_question.
  destruct (List.find _ (first :: second :: others)) as [q'|] eqn:Hfind; simpl; [|by left].
  apply find_some in Hfind as [_ Hid]. apply bool_decide_eq_true_1 in Hid.
  right. rewrite Hid. apply clean_id_is_clean. eapply Hanswers, Hans.
Qed.

Lemma chain_names_clean_ids_only_witness :
  Ex.q3 = Ex.q2 \/
  (PyStr.is_ascii (q_id Ex.q3) = true /\
   str_contains "," (q_id Ex.q3) = false /\
   PyStr.strip (q_id Ex.q3) = q_id Ex.q3).
Proof.
  apply (chain_names_clean_ids_only (Ex.picks " ID: q3, the schema ")
           (new_world (Ex.started Ex.three))
           Ex.three [Ex.q1; Ex.q2; Ex.q3] ["q1"] Ex.opening Ex.q2 Ex.q3 [] Ex.q3).
  - intros title descr avail hist answer [= <-]. reflexivity.
  - reflexivity.
  - reflexivity.
  - reflexivity.
  - reflexivity.
  - reflexivity.
  - vm_compute. reflexivity.
Defined.
